(** * Job lifecycle and queue scheduler of the HeyGem API server

    Shallow embedding of the video-synthesis job store ([dao/video.js]),
    the video service ([services/video.js]), the task service
    ([services/task.js]) and the [POST /videos/:id/generate] route.

    The SQLite table [video] is modelled as the list of its rows in rowid
    order, which is the order a [SELECT] without [ORDER BY] scans them in.
    Gateway calls (TTS, Face2Face submit and poll, the FFmpeg probe) are
    inputs: each call site receives the outcome the remote returned, or the
    message of the exception it raised.  The production branch
    ([NODE_ENV = production], as in the compose file) is modelled. *)

From Stdlib Require Import List String Ascii Bool Arith ZArith Lia.
From Stdlib Require Import DecimalString Sorting.Sorted.
Import ListNotations.
Open Scope string_scope.

(** ** Data model *)

Inductive video_status :=
| Draft | Waiting | Processing | Pending | Completed | Failed.

Definition status_eqb (a b : video_status) : bool :=
  match a, b with
  | Draft, Draft | Waiting, Waiting | Processing, Processing
  | Pending, Pending | Completed, Completed | Failed, Failed => true
  | _, _ => false
  end.

(** A row of the [video] table.  [null] columns are [None]; [code] is the
    Face2Face task code used to poll the render service (the remote handle),
    [param] the JSON of the submitted request. *)
Record video := mkVideo {
  id : nat;
  name : string;
  status : video_status;
  progress : nat;
  message : string;
  created_at : nat;
  model_id : nat;
  voice_id : option nat;
  text_content : string;
  audio_path : option string;
  file_path : option string;
  duration : option nat;
  param : option string;
  code : option string
}.

Definition store := list video.

(** The object passed to [videoDao.update]: the keys present besides [id]. *)
Record patch := mkPatch {
  p_status : option video_status;
  p_progress : option nat;
  p_message : option string;
  p_audio_path : option (option string);
  p_file_path : option (option string);
  p_duration : option (option nat);
  p_param : option (option string);
  p_code : option (option string)
}.

Definition pick {A} (o : option A) (d : A) : A :=
  match o with Some x => x | None => d end.

(** [UPDATE video SET k = ? ,... WHERE id = ?]: the listed columns are
    overwritten, the others kept. *)
Definition apply_patch (p : patch) (v : video) : video :=
  mkVideo (id v) (name v)
    (pick (p_status p) (status v))
    (pick (p_progress p) (progress v))
    (pick (p_message p) (message v))
    (created_at v) (model_id v) (voice_id v) (text_content v)
    (pick (p_audio_path p) (audio_path v))
    (pick (p_file_path p) (file_path v))
    (pick (p_duration p) (duration v))
    (pick (p_param p) (param v))
    (pick (p_code p) (code v)).

(** ** Job store ([dao/video.js]) *)

Definition update (s : store) (vid : nat) (p : patch) : store :=
  map (fun v => if Nat.eqb (id v) vid then apply_patch p v else v) s.

(** [updateStatus(id, status, message, progress = 0, file_path = '')]. *)
Definition updateStatus (s : store) (vid : nat) (st : video_status)
    (msg : string) (prog : nat) (fp : string) : store :=
  update s vid
    (mkPatch (Some st) (Some prog) (Some msg) None (Some (Some fp)) None None None).

Definition selectByID (s : store) (vid : nat) : option video :=
  find (fun v => Nat.eqb (id v) vid) s.

(** [SELECT * FROM video WHERE status = ?] *)
Definition selectByStatus (s : store) (st : video_status) : list video :=
  filter (fun v => status_eqb (status v) st) s.

(** [SELECT * FROM video WHERE status = ? LIMIT 1] *)
Definition findFirstByStatus (s : store) (st : video_status) : option video :=
  hd_error (selectByStatus s st).

(** [insert(video)]: the new row gets the next rowid and
    [created_at = Date.now()]. *)
Definition insert (s : store) (v : video) (now : nat) : store :=
  app s [mkVideo (id v) (name v) (status v) (progress v) (message v) now
          (model_id v) (voice_id v) (text_content v) (audio_path v)
          (file_path v) (duration v) (param v) (code v)].

Definition remove (s : store) (vid : nat) : store :=
  filter (fun v => negb (Nat.eqb (id v) vid)) s.

(** ** Outcomes of calls that may throw *)

Inductive outcome (A : Type) :=
| Ok : A -> outcome A
| Throw : string -> outcome A.
Arguments Ok {A} _.
Arguments Throw {A} _.

Definition nat_to_string (n : nat) : string :=
  NilEmpty.string_of_uint (Nat.to_uint n).

Definition status_to_string (st : video_status) : string :=
  match st with
  | Draft => "draft" | Waiting => "waiting" | Processing => "processing"
  | Pending => "pending" | Completed => "completed" | Failed => "failed"
  end.

(** ** User actions of the task service ([services/task.js]) *)

(** [retryFailedTask(taskId)]: a thrown error leaves the store as it was. *)
Definition retryFailedTask (s : store) (taskId : nat) : store * outcome bool :=
  match selectByID s taskId with
  | None => (s, Throw ("Task not found: " ++ nat_to_string taskId))
  | Some v =>
      if negb (status_eqb (status v) Failed)
      then (s, Throw ("Task is not in failed status: " ++ nat_to_string taskId))
      else (update s taskId
              (mkPatch (Some Waiting) (Some 0) (Some "Retrying task...")
                 None None None None None), Ok true)
  end.

Definition cancellable (st : video_status) : bool :=
  existsb (status_eqb st) [Waiting; Processing; Pending].

(** [cancelTask(taskId)] *)
Definition cancelTask (s : store) (taskId : nat) : store * outcome bool :=
  match selectByID s taskId with
  | None => (s, Throw ("Task not found: " ++ nat_to_string taskId))
  | Some v =>
      if negb (cancellable (status v))
      then (s, Throw ("Cannot cancel task in status: " ++ status_to_string (status v)))
      else (update s taskId
              (mkPatch (Some Failed) (Some 0) (Some "Task cancelled by user")
                 None None None None None), Ok true)
  end.

(** ** The [POST /videos/:id/generate] route ([routes/videos.js])

    Returns the store, the HTTP outcome and the ids handed to
    [setImmediate(() => synthesizeVideo(id))].  The module imports only
    [express], [asyncHandler]/[AppError], [logger], [config],
    [videoService], [audition], [fs] and [path] (lines 1-8); [videoDao] is
    not bound in this ES module, so the handler's first statement
    [const video = videoDao.selectByID(id)] throws
    [ReferenceError: videoDao is not defined] before the job is read,
    updated or scheduled; [asyncHandler] passes the error on to the error
    middleware. *)
Definition generate (s : store) (vid : nat) : store * outcome unit * list nat :=
  (s, Throw "videoDao is not defined", []).

(** ** Gateways consumed by the video service *)

(** [modelDao.selectByID] row of [f2f_model]. *)
Record f2f_model := mkModel {
  m_video_path : string;
  m_voice_id : option nat
}.

(** Response of [makeVideo] (Face2Face submit). *)
Record api_result := mkApiResult { r_code : Z; r_msg : string }.

(** [statusResponse.data] of [getVideoStatus] (Face2Face poll). *)
Record status_data := mkStatusData {
  d_status : Z; d_msg : string; d_progress : nat; d_result : string
}.

Record status_response := mkStatusResponse {
  sr_code : Z; sr_msg : string; sr_data : status_data
}.

(** What the collaborators answer during one run of a service function:
    reference lookups, the TTS call, the Face2Face submit (given the
    [param] object's [audio_url], [video_url] and [code]), the fresh
    [crypto.randomUUID()], the Face2Face poll, the FFmpeg probe and
    [config.assetPath.model]. *)
Record gateways := mkGateways {
  g_model : nat -> option f2f_model;
  g_voice : nat -> option nat;
  g_make_audio : nat -> string -> outcome string;
  g_make_video : string -> string -> string -> outcome api_result;
  g_uuid : string;
  g_video_status : option string -> outcome status_response;
  g_duration : string -> outcome nat;
  g_asset_model : string
}.

(** ** JavaScript helpers *)

(** Truthiness of a nullable string column. *)
Definition js_truthy (o : option string) : bool :=
  match o with Some s => negb (String.eqb s "") | None => false end.

(** [a || b] on nullable ids ([0] and [null] are falsy). *)
Definition js_or_id (a b : option nat) : option nat :=
  match a with Some n => if Nat.eqb n 0 then b else a | None => b end.

(** [msg || fallback] on a message string ([undefined] read as [""]). *)
Definition js_or_msg (msg fallback : string) : string :=
  if String.eqb msg "" then fallback else msg.

Definition id_to_string (o : option nat) : string :=
  match o with Some n => nat_to_string n | None => "null" end.

Definition lookup_voice (g : gateways) (o : option nat) : option nat :=
  match o with Some n => g_voice g n | None => None end.

Definition dq : string := String "034"%char EmptyString.
Definition jstr (s : string) : string := dq ++ s ++ dq.

(** [JSON.stringify(param)] of the object built by [callFace2FaceAPI]. *)
Definition param_json (audio video uuid : string) : string :=
  "{" ++ jstr "audio_url" ++ ":" ++ jstr audio ++ ","
      ++ jstr "video_url" ++ ":" ++ jstr video ++ ","
      ++ jstr "code" ++ ":" ++ jstr uuid ++ ","
      ++ jstr "chaofen" ++ ":0," ++ jstr "watermark_switch" ++ ":0,"
      ++ jstr "pn" ++ ":1}".

(** [path.join(a, b)] *)
Definition path_join (a b : string) : string := a ++ "/" ++ b.

(** ** Video service ([services/video.js]) *)

(** The [audioPath] of [synthesizeVideo]: the row's audio when present,
    otherwise TTS with [video.voice_id || model.voice_id]. *)
Definition resolve_audio (g : gateways) (v : video) (m : f2f_model)
    : outcome string :=
  if js_truthy (audio_path v) then Ok (pick (audio_path v) "")
  else
    let vref := js_or_id (voice_id v) (m_voice_id m) in
    match lookup_voice g vref with
    | None => Throw ("Voice not found: " ++ id_to_string vref)
    | Some voice => g_make_audio g voice (text_content v)
    end.

(** [synthesizeVideo(videoId)]: the store it leaves and how its promise
    settles ([Throw m] is the rethrown error, after the catch block has
    run [updateStatus(videoId, 'failed', error.message)]). *)
Definition synthesizeVideo (s : store) (g : gateways) (vid : nat)
    : store * outcome nat :=
  let s1 := update s vid
      (mkPatch (Some Processing) None (Some "Submitting task...")
         None (Some None) None None None) in
  let fail (e : string) := (updateStatus s1 vid Failed e 0 "", Throw e) in
  match selectByID s1 vid with
  | None => fail ("Video not found: " ++ nat_to_string vid)
  | Some v =>
  match g_model g (model_id v) with
  | None => fail ("Model not found: " ++ nat_to_string (model_id v))
  | Some m =>
  match resolve_audio g v m with
  | Throw e => fail e
  | Ok audioPath =>
  match g_make_video g audioPath (m_video_path m) (g_uuid g) with
  | Throw e => fail e
  | Ok result =>
      let pj := param_json audioPath (m_video_path m) (g_uuid g) in
      if Z.eqb (r_code result) 10000 then
        (update s1 vid
           (mkPatch (Some Pending) None
              (Some (js_or_msg (r_msg result) "Task submitted successfully"))
              (Some (Some audioPath)) (Some None) None
              (Some (Some pj)) (Some (Some (g_uuid g)))), Ok vid)
      else
        (update s1 vid
           (mkPatch (Some Failed) None
              (Some (js_or_msg (r_msg result) "Task submission failed"))
              (Some (Some audioPath)) (Some None) None
              (Some (Some pj)) (Some (Some (g_uuid g)))), Ok vid)
  end end end end.

(** [synthesizeVideo] as Node runs it: the part before its first [await]
    runs inside the [setImmediate] callback; the rest runs when the awaited
    call ([makeAudioForVideo] for TTS, else [makeVideoApi] inside
    [callFace2FaceAPI]) settles, with the [video] and [model] read before.
    Between the TTS and the submit call the function writes nothing, so the
    two awaits are taken as one. *)
Inductive audio_plan :=
| AudioReady (path : string)   (* [video.audio_path] is set *)
| AudioTts (voice : nat).      (* [makeAudioForVideo({voiceId, text})] *)

Record suspended := mkSusp {
  sp_vid : nat;
  sp_video : video;
  sp_model : f2f_model;
  sp_audio : audio_plan
}.

(** Up to the first [await]: the [processing] update and the lookups; a
    lookup failure is caught, recorded and rethrown at once. *)
Definition synth_begin (s : store) (g : gateways) (vid : nat)
    : store * outcome suspended :=
  let s1 := update s vid
      (mkPatch (Some Processing) None (Some "Submitting task...")
         None (Some None) None None None) in
  let fail (e : string) := (updateStatus s1 vid Failed e 0 "", Throw e) in
  match selectByID s1 vid with
  | None => fail ("Video not found: " ++ nat_to_string vid)
  | Some v =>
  match g_model g (model_id v) with
  | None => fail ("Model not found: " ++ nat_to_string (model_id v))
  | Some m =>
      if js_truthy (audio_path v)
      then (s1, Ok (mkSusp vid v m (AudioReady (pick (audio_path v) ""))))
      else
        let vref := js_or_id (voice_id v) (m_voice_id m) in
        match lookup_voice g vref with
        | None => fail ("Voice not found: " ++ id_to_string vref)
        | Some voice => (s1, Ok (mkSusp vid v m (AudioTts voice)))
        end
  end end.

(** After the awaited calls settle, on the store as it is then. *)
Definition synth_resume (s : store) (g : gateways) (c : suspended)
    : store * outcome nat :=
  let vid := sp_vid c in
  let v := sp_video c in
  let m := sp_model c in
  let fail (e : string) := (updateStatus s vid Failed e 0 "", Throw e) in
  let audio :=
    match sp_audio c with
    | AudioReady p => Ok p
    | AudioTts voice => g_make_audio g voice (text_content v)
    end in
  match audio with
  | Throw e => fail e
  | Ok audioPath =>
  match g_make_video g audioPath (m_video_path m) (g_uuid g) with
  | Throw e => fail e
  | Ok result =>
      let pj := param_json audioPath (m_video_path m) (g_uuid g) in
      if Z.eqb (r_code result) 10000 then
        (update s vid
           (mkPatch (Some Pending) None
              (Some (js_or_msg (r_msg result) "Task submitted successfully"))
              (Some (Some audioPath)) (Some None) None
              (Some (Some pj)) (Some (Some (g_uuid g)))), Ok vid)
      else
        (update s vid
           (mkPatch (Some Failed) None
              (Some (js_or_msg (r_msg result) "Task submission failed"))
              (Some (Some audioPath)) (Some None) None
              (Some (Some pj)) (Some (Some (g_uuid g)))), Ok vid)
  end end.

(** [processNextWaitingVideo()]: the id it hands to [setImmediate]. *)
Definition processNextWaitingVideo (s : store) : list nat :=
  match findFirstByStatus s Waiting with
  | Some v => [id v]
  | None => []
  end.

(** [handleVideoCompletion(video, statusData)] *)
Definition handleVideoCompletion (s : store) (g : gateways) (v : video)
    (d : status_data) : store :=
  match g_duration g (path_join (g_asset_model g) (d_result d)) with
  | Throw e =>
      updateStatus s (id v) Failed ("Completion handling failed: " ++ e) 0 ""
  | Ok dur =>
      update s (id v)
        (mkPatch (Some Completed) (Some (d_progress d)) (Some (d_msg d))
           None (Some (Some (d_result d))) (Some (Some dur)) None None)
  end.

(** The poll of one pending row, inside the [try] of [processPendingVideos]. *)
Definition pollPending (s : store) (g : gateways) (v : video) : store :=
  match g_video_status g (code v) with
  | Throw e => updateStatus s (id v) Failed ("Status check failed: " ++ e) 0 ""
  | Ok r =>
      if existsb (Z.eqb (sr_code r)) [9999; 10002; 10003]%Z then
        updateStatus s (id v) Failed (sr_msg r) 0 ""
      else if Z.eqb (sr_code r) 10000 then
        let d := sr_data r in
        if Z.eqb (d_status d) 1 then
          updateStatus s (id v) Pending (d_msg d) (d_progress d) ""
        else if Z.eqb (d_status d) 2 then handleVideoCompletion s g v d
        else if Z.eqb (d_status d) 3 then
          updateStatus s (id v) Failed (d_msg d) 0 ""
        else s
      else s
  end.

(** [processPendingVideos()]: the store, the ids handed to [setImmediate]
    and the returned video ([null] is [None]). *)
Definition processPendingVideos (s : store) (g : gateways)
    : store * list nat * option video :=
  match findFirstByStatus s Pending with
  | None => (s, processNextWaitingVideo s, None)
  | Some v => (pollPending s g v, [], Some v)
  end.

(** ** Task service: one scheduler tick ([processTaskQueue]) *)

Definition processTaskQueue (s : store) (g : gateways) : store * list nat :=
  let '(s1, sched, processed) := processPendingVideos s g in
  match processed with
  | None => (s1, app sched (processNextWaitingVideo s1))
  | Some _ => (s1, sched)
  end.

(** ** The process: interval ticks, user requests and [setImmediate] callbacks

    [ls_immediates] holds the [synthesizeVideo] callbacks queued with
    [setImmediate], in order; [ls_awaiting] the [synthesizeVideo] calls
    suspended at their first [await], whose gateway calls may settle in any
    order.  A tick runs to its end in one step (the poll's [await] is not
    split).  Jobs are rows of the shared table, inserted by [videoDao.insert]
    ([Create]).  A [synthesizeVideo] promise that rejects is
    not awaited by anybody; no [unhandledRejection] or [uncaughtException]
    handler is installed, so under Node's default
    [--unhandled-rejections=throw] mode the process exits and no further
    interval tick runs ([ls_halted]). *)
Record loop_state := mkLoop {
  ls_store : store;
  ls_immediates : list nat;
  ls_awaiting : list suspended;
  ls_unhandled : list string;
  ls_halted : bool
}.

Inductive event :=
| Tick (g : gateways)                   (* setInterval callback *)
| RunImmediate (g : gateways)           (* next setImmediate callback *)
| Settle (k : nat) (g : gateways)       (* k-th awaited synthesis call settles *)
| Generate (vid : nat)                  (* POST /videos/:id/generate *)
| Cancel (vid : nat)                    (* cancelTask *)
| Retry (vid : nat)                     (* retryFailedTask *)
| Create (v : video) (now : nat).       (* videoDao.insert of a row *)

Definition with_store (ls : loop_state) (s : store) : loop_state :=
  mkLoop s (ls_immediates ls) (ls_awaiting ls) (ls_unhandled ls) (ls_halted ls).

Definition remove_nth {A} (k : nat) (l : list A) : list A :=
  app (firstn k l) (skipn (S k) l).

Definition step (ls : loop_state) (e : event) : loop_state :=
  if ls_halted ls then ls else
  let s := ls_store ls in
  match e with
  | Tick g =>
      let '(s', sched) := processTaskQueue s g in
      mkLoop s' (app (ls_immediates ls) sched) (ls_awaiting ls)
        (ls_unhandled ls) false
  | RunImmediate g =>
      match ls_immediates ls with
      | [] => ls
      | vid :: rest =>
          match synth_begin s g vid with
          | (s', Ok c) =>
              mkLoop s' rest (app (ls_awaiting ls) [c]) (ls_unhandled ls) false
          | (s', Throw m) =>
              mkLoop s' rest (ls_awaiting ls) (app (ls_unhandled ls) [m]) true
          end
      end
  | Settle k g =>
      match nth_error (ls_awaiting ls) k with
      | None => ls
      | Some c =>
          match synth_resume s g c with
          | (s', Ok _) =>
              mkLoop s' (ls_immediates ls) (remove_nth k (ls_awaiting ls))
                (ls_unhandled ls) false
          | (s', Throw m) =>
              mkLoop s' (ls_immediates ls) (remove_nth k (ls_awaiting ls))
                (app (ls_unhandled ls) [m]) true
          end
      end
  | Generate vid =>
      let '(s', _, sched) := generate s vid in
      mkLoop s' (app (ls_immediates ls) sched) (ls_awaiting ls)
        (ls_unhandled ls) false
  | Cancel vid => with_store ls (fst (cancelTask s vid))
  | Retry vid => with_store ls (fst (retryFailedTask s vid))
  | Create v now => with_store ls (insert s v now)
  end.

Definition run (ls : loop_state) (es : list event) : loop_state :=
  fold_left step es ls.

Definition initial : loop_state := mkLoop [] [] [] [] false.

(** Number of rows whose status is [processing] or [pending]. *)
Definition in_flight (s : store) : nat :=
  List.length (filter (fun v => status_eqb (status v) Processing
                           || status_eqb (status v) Pending) s).

(** ** Concrete inputs *)

Definition draft (vid : nat) (audio : option string) : video :=
  mkVideo vid "clip" Draft 0 "" 0 1 (Some 1) "Hello" audio None None None None.

Definition no_status : status_response :=
  mkStatusResponse 10000 "" (mkStatusData 1 "" 0 "").

(** Gateways where every reference resolves, TTS answers [ttsOut], submit
    answers [submitOut], the poll answers [pollOut] and the probe [probeOut]. *)
Definition gw (ttsOut : outcome string) (submitOut : outcome api_result)
    (uuid : string) (pollOut : outcome status_response)
    (probeOut : outcome nat) : gateways :=
  mkGateways (fun _ => Some (mkModel "m1.mp4" (Some 1)))
    (fun n => Some n)
    (fun _ _ => ttsOut) (fun _ _ _ => submitOut) uuid
    (fun _ => pollOut) (fun _ => probeOut) "/data/model".

Definition g_accept (uuid : string) : gateways :=
  gw (Ok "a1.wav") (Ok (mkApiResult 10000 "ok")) uuid (Ok no_status) (Ok 12).

Definition g_running : gateways :=
  gw (Ok "a1.wav") (Ok (mkApiResult 10000 "ok")) "u"
     (Ok (mkStatusResponse 10000 "" (mkStatusData 1 "rendering" 40 ""))) (Ok 12).

(** ** Queue view ([getWaitingTasks], [getTaskDetails]) *)

(** [waitingTasks.map((task, index) => ({...task, queuePosition: index + 1,
    totalInQueue: waitingTasks.length}))] *)
Fixpoint number_from (l : list video) (i total : nat) : list (video * nat * nat) :=
  match l with
  | [] => []
  | t :: r => (t, i + 1, total) :: number_from r (S i) total
  end.

Definition getWaitingTasks (s : store) : list (video * nat * nat) :=
  let w := selectByStatus s Waiting in number_from w 0 (List.length w).

(** [queuePosition] reported by [getTaskDetails] for a waiting task. *)
Definition queuePosition (s : store) (taskId : nat) : option nat :=
  match find (fun '(t, _, _) => Nat.eqb (id t) taskId) (getWaitingTasks s) with
  | Some (_, q, _) => Some q
  | None => None
  end.

(** The position as the spec words it: 1 + the number of waiting jobs with
    an earlier [createdAt]. *)
Definition spec_queue_position (s : store) (j : video) : nat :=
  1 + List.length (filter (fun x => Nat.ltb (created_at x) (created_at j))
                     (selectByStatus s Waiting)).

(** Rows in rowid order carry non-decreasing [created_at] (each insert
    stamps [Date.now()], and no path writes [created_at] afterwards). *)
Definition created_sorted (s : store) : Prop :=
  StronglySorted (fun a b => created_at a <= created_at b) s.

(** The [Create] events of a step stamp a time no earlier than any row. *)
Definition clock_ok (ls : loop_state) (e : event) : Prop :=
  match e with
  | Create _ now => forall v, In v (ls_store ls) -> created_at v <= now
  | _ => True
  end.

(** ** Outcomes of one poll of a pending row ([pollPending]) *)

Definition is_fail_code (c : Z) : bool := existsb (Z.eqb c) [9999; 10002; 10003]%Z.

Inductive poll_result (g : gateways) (v : video) : video -> Prop :=
| PollThrew e :
    g_video_status g (code v) = Throw e ->
    poll_result g v (apply_patch
      (mkPatch (Some Failed) (Some 0) (Some ("Status check failed: " ++ e))
         None (Some (Some "")) None None None) v)
| PollFailCode r :
    g_video_status g (code v) = Ok r -> is_fail_code (sr_code r) = true ->
    poll_result g v (apply_patch
      (mkPatch (Some Failed) (Some 0) (Some (sr_msg r))
         None (Some (Some "")) None None None) v)
| PollRunning r :
    g_video_status g (code v) = Ok r -> sr_code r = 10000%Z ->
    d_status (sr_data r) = 1%Z ->
    poll_result g v (apply_patch
      (mkPatch (Some Pending) (Some (d_progress (sr_data r)))
         (Some (d_msg (sr_data r))) None (Some (Some "")) None None None) v)
| PollDone r dur :
    g_video_status g (code v) = Ok r -> sr_code r = 10000%Z ->
    d_status (sr_data r) = 2%Z ->
    g_duration g (path_join (g_asset_model g) (d_result (sr_data r))) = Ok dur ->
    poll_result g v (apply_patch
      (mkPatch (Some Completed) (Some (d_progress (sr_data r)))
         (Some (d_msg (sr_data r))) None (Some (Some (d_result (sr_data r))))
         (Some (Some dur)) None None) v)
| PollProbeFailed r e :
    g_video_status g (code v) = Ok r -> sr_code r = 10000%Z ->
    d_status (sr_data r) = 2%Z ->
    g_duration g (path_join (g_asset_model g) (d_result (sr_data r))) = Throw e ->
    poll_result g v (apply_patch
      (mkPatch (Some Failed) (Some 0) (Some ("Completion handling failed: " ++ e))
         None (Some (Some "")) None None None) v)
| PollRemoteFailed r :
    g_video_status g (code v) = Ok r -> sr_code r = 10000%Z ->
    d_status (sr_data r) = 3%Z ->
    poll_result g v (apply_patch
      (mkPatch (Some Failed) (Some 0) (Some (d_msg (sr_data r)))
         None (Some (Some "")) None None None) v)
| PollUnknownCode r :
    g_video_status g (code v) = Ok r -> is_fail_code (sr_code r) = false ->
    sr_code r <> 10000%Z ->
    poll_result g v v
| PollUnknownState r :
    g_video_status g (code v) = Ok r -> sr_code r = 10000%Z ->
    ~ In (d_status (sr_data r)) [1; 2; 3]%Z ->
    poll_result g v v.

(** ** Scenarios *)

(** Submit rejected with [quota exceeded]. *)
Definition g_reject : gateways :=
  gw (Ok "a1.wav") (Ok (mkApiResult 10001 "quota exceeded")) "u1"
     (Ok no_status) (Ok 12).

(** Submit call raising a network error. *)
Definition g_down : gateways :=
  gw (Ok "a1.wav") (Throw "connect ECONNREFUSED") "u2" (Ok no_status) (Ok 12).

(** From two waiting jobs: a tick promotes job 1 (twice), both callbacks
    run up to their TTS call; the next tick, seeing no [pending] row,
    promotes job 2 (twice), whose callbacks run up to their TTS call too. *)
Definition overlap_pre : list event :=
  [Tick g_running; RunImmediate g_running; RunImmediate g_running;
   Tick g_running; RunImmediate g_running; RunImmediate g_running].

(** The four suspended calls then settle, each submit accepted. *)
Definition overlap_settle : list event :=
  [Settle 0 (g_accept "h1"); Settle 0 (g_accept "h2");
   Settle 0 (g_accept "h3"); Settle 0 (g_accept "h4")].


(** ** Patches written by the user actions, and sample stores *)

Definition cancel_patch : patch :=
  mkPatch (Some Failed) (Some 0) (Some "Task cancelled by user")
    None None None None None.

Definition retry_patch : patch :=
  mkPatch (Some Waiting) (Some 0) (Some "Retrying task...")
    None None None None None.

Definition cancel_sample : store :=
  [mkVideo 3 "clip" Pending 40 "rendering" 100 1 (Some 1) "Hello"
     (Some "a1.wav") None None (Some "{}") (Some "h1")].

Definition failed_job : store :=
  [mkVideo 1 "clip" Failed 0 "quota exceeded" 100 1 (Some 1) "Hello"
     (Some "a1.wav") None None (Some "{}") (Some "h1")].

Definition completed_job : store :=
  [mkVideo 5 "clip" Completed 100 "done" 100 1 (Some 1) "Hello"
     (Some "a1.wav") (Some "r1.mp4") (Some 12) (Some "{}") (Some "h1")].

Definition waiting_job : store :=
  [mkVideo 1 "clip" Waiting 0 "" 100 1 (Some 1) "Hello"
     (Some "a1.wav") None None None None].

Definition pending_job : store :=
  [mkVideo 1 "clip" Pending 0 "Task submitted successfully" 100 1 (Some 1)
     "Hello" (Some "a1.wav") None None (Some "{}") (Some "h1")].

(** A poll answered with a code the poller does not handle. *)
Definition g_busy : gateways :=
  gw (Ok "a1.wav") (Ok (mkApiResult 10000 "ok")) "u"
     (Ok (mkStatusResponse 10001 "busy" (mkStatusData 1 "rendering" 40 "")))
     (Ok 12).

Definition two_waiting : store :=
  [mkVideo 1 "first" Waiting 0 "" 100 1 (Some 1) "Hello" None None None None None;
   mkVideo 2 "second" Waiting 0 "" 200 1 (Some 1) "Hello" None None None None None].

Definition tied_waiting : store :=
  [mkVideo 1 "first" Waiting 0 "" 100 1 (Some 1) "Hello" None None None None None;
   mkVideo 2 "second" Waiting 0 "" 100 1 (Some 1) "Hello" None None None None None].

(** The process started on a table that already holds these rows. *)
Definition start_with (s : store) : loop_state := mkLoop s [] [] [] false.

(** A poll reporting the job done with result [r2.mp4]. *)
Definition g_done : gateways :=
  gw (Ok "a1.wav") (Ok (mkApiResult 10000 "ok")) "u"
     (Ok (mkStatusResponse 10000 "" (mkStatusData 2 "done" 100 "r2.mp4")))
     (Ok 20).

Definition done_and_pending : store := app completed_job pending_job.

(** The rows of [two_waiting] inserted into an empty table, then the
    overlapping promotions of [overlap_pre], the settling calls and a tick. *)
Definition overlap_from_empty : list event :=
  app (map (fun v => Create v (created_at v)) two_waiting)
    (app overlap_pre (Tick g_running :: app overlap_settle [Tick g_running])).

(** ** Further task-service and video-service functions *)

(** [getTaskStats()] *)
Record task_stats := mkStats {
  st_pending : nat; st_processing : nat; st_waiting : nat;
  st_completed : nat; st_failed : nat; st_draft : nat; st_total : nat
}.

Definition getTaskStats (s : store) : task_stats :=
  let c st := List.length (selectByStatus s st) in
  let p := c Pending in let pr := c Processing in let w := c Waiting in
  let co := c Completed in let f := c Failed in let d := c Draft in
  mkStats p pr w co f d (p + pr + w + co + f + d).

(** A task id as the JavaScript value it is: a number, or the string taken
    from [req.params]. *)
Inductive js_id := JNum (n : nat) | JStr (str : string).

(** The integer SQLite compares with the [id] column ([INTEGER] affinity
    turns a decimal string into its number). *)
Definition sql_id (k : js_id) : option nat :=
  match k with
  | JNum n => Some n
  | JStr str =>
      if String.eqb str "" then None
      else option_map Nat.of_uint (NilEmpty.uint_of_string str)
  end.

(** [t.id === taskId]: strict equality of the numeric column and the id. *)
Definition js_strict_eq_id (n : nat) (k : js_id) : bool :=
  match k with JNum m => Nat.eqb n m | JStr _ => false end.

Definition selectByID_js (s : store) (k : js_id) : option video :=
  match sql_id k with Some n => selectByID s n | None => None end.

(** The object built by [getTaskDetails]. *)
Record task_details := mkDetails {
  td_id : nat; td_name : string; td_status : video_status; td_progress : nat;
  td_message : string; td_created_at : nat; td_model_id : nat;
  td_voice_id : option nat; td_text_content : string;
  td_audio_path : option string; td_file_path : option string;
  td_duration : option nat;
  td_queuePosition : option nat; td_totalInQueue : option nat
}.

(** [getTaskDetails(taskId)] *)
Definition getTaskDetails (s : store) (taskId : js_id) : option task_details :=
  match selectByID_js s taskId with
  | None => None
  | Some v =>
      let queueInfo :=
        if status_eqb (status v) Waiting
        then find (fun '(t, _, _) => js_strict_eq_id (id t) taskId)
                  (getWaitingTasks s)
        else None in
      Some (mkDetails (id v) (name v) (status v) (progress v) (message v)
              (created_at v) (model_id v) (voice_id v) (text_content v)
              (audio_path v) (file_path v) (duration v)
              (option_map (fun '(_, q, _) => q) queueInfo)
              (option_map (fun '(_, _, n) => n) queueInfo))
  end.

(** One [if (col) { const p = path.join(dir, col); if (fs.existsSync(p))
    fs.unlinkSync(p) }] block of [deleteVideo]: the file unlinked, and how
    [unlinkSync] returned ([Throw] with the error's message when it throws,
    e.g. on [EACCES], [EBUSY], [EISDIR] or a file gone since [existsSync]). *)
Definition unlink_asset (existsSync : string -> bool)
    (unlinkSync : string -> outcome unit) (dir : string) (col : option string)
    : list string * outcome unit :=
  if js_truthy col then
    let p := path_join dir (pick col "") in
    if existsSync p then
      match unlinkSync p with
      | Ok _ => ([p], Ok tt)
      | Throw e => ([], Throw e)
      end
    else ([], Ok tt)
  else ([], Ok tt).

(** [deleteVideo(videoId)]: the store, the files unlinked (that of
    [file_path] under the model asset directory, then that of [audio_path]
    under the TTS product directory) and the outcome.  An error of
    [unlinkSync] is rethrown by the [catch] block before [videoDao.remove]
    runs. *)
Definition deleteVideo (s : store) (assetModel assetTts : string)
    (existsSync : string -> bool) (unlinkSync : string -> outcome unit)
    (vid : nat) : store * list string * outcome bool :=
  match selectByID s vid with
  | None => (s, [], Throw ("Video not found: " ++ nat_to_string vid))
  | Some v =>
      match unlink_asset existsSync unlinkSync assetModel (file_path v) with
      | (f1, Throw e) => (s, f1, Throw e)
      | (f1, Ok _) =>
          match unlink_asset existsSync unlinkSync assetTts (audio_path v) with
          | (f2, Throw e) => (s, app f1 f2, Throw e)
          | (f2, Ok _) => (remove s vid, app f1 f2, Ok true)
          end
      end
  end.

(** The asset files of a job that [deleteVideo] may unlink. *)
Definition asset_file (assetModel assetTts : string) (v : video) (p : string)
    : Prop :=
  (exists f, file_path v = Some f /\ f <> "" /\ p = path_join assetModel f) \/
  (exists f, audio_path v = Some f /\ f <> "" /\ p = path_join assetTts f).

(** ** Reachable states *)

(** The conditions the environment guarantees for one event: [Date.now()]
    does not go backwards and a new row gets a rowid not in the table. *)
Definition event_okb (ls : loop_state) (e : event) : bool :=
  match e with
  | Create v now =>
      forallb (fun x => Nat.leb (created_at x) now) (ls_store ls) &&
      negb (existsb (fun x => Nat.eqb (id x) (id v)) (ls_store ls))
  | _ => true
  end.

Fixpoint trace_okb (ls : loop_state) (es : list event) : bool :=
  match es with
  | [] => true
  | e :: es' => event_okb ls e && trace_okb (step ls e) es'
  end.

(** A row carries a result file only when it is completed. *)
Definition result_only_when_completed (s : store) : Prop :=
  forall v, In v s -> js_truthy (file_path v) = true -> status v = Completed.

(** What an event must not do for [result_only_when_completed] to carry
    over: an inserted row carries no result file. *)
Definition roc_event_ok (e : event) : Prop :=
  match e with
  | Create v _ => js_truthy (file_path v) = false
  | _ => True
  end.

(** ** Store lemmas *)

Lemma status_eqb_spec (a b : video_status) : status_eqb a b = true <-> a = b.
Proof. destruct a, b; simpl; split; congruence. Qed.

Lemma selectByID_update_same (s : store) (t : nat) (p : patch) :
  selectByID (update s t p) t = option_map (apply_patch p) (selectByID s t).
Proof.
  induction s as [| v s IH]; simpl; [reflexivity |].
  destruct (Nat.eqb (id v) t) eqn:E; simpl.
  - rewrite E. reflexivity.
  - rewrite E. exact IH.
Qed.

Lemma selectByID_update_other (s : store) (t u : nat) (p : patch) :
  u <> t -> selectByID (update s t p) u = selectByID s u.
Proof.
  intros Hne. induction s as [| v s IH]; simpl; [reflexivity |].
  destruct (Nat.eqb (id v) t) eqn:E; simpl.
  - apply Nat.eqb_eq in E. subst t.
    destruct (Nat.eqb (id v) u) eqn:E2.
    + apply Nat.eqb_eq in E2. congruence.
    + exact IH.
  - destruct (Nat.eqb (id v) u); [reflexivity | exact IH].
Qed.

(** ** User actions *)

Lemma cancellable_spec (st : video_status) :
  cancellable st = true <-> In st [Waiting; Processing; Pending].
Proof. destruct st; simpl; intuition discriminate. Qed.

Lemma cancelTask_ok (s : store) (t : nat) (v : video) :
  selectByID s t = Some v -> cancellable (status v) = true ->
  cancelTask s t = (update s t cancel_patch, Ok true).
Proof. unfold cancelTask. intros -> ->. reflexivity. Qed.

Lemma retryFailedTask_ok (s : store) (t : nat) (v : video) :
  selectByID s t = Some v -> status v = Failed ->
  retryFailedTask s t = (update s t retry_patch, Ok true).
Proof. unfold retryFailedTask. intros -> ->. reflexivity. Qed.

(** C4. Cancel guard: cancelling a waiting, processing or pending job
    succeeds and leaves it [failed] with the cancellation message; cancelling
    a completed or failed job, or a missing one, throws and changes nothing. *)
Theorem cancelTask_guard (s : store) (t : nat) :
  (forall v, selectByID s t = Some v ->
     In (status v) [Waiting; Processing; Pending] ->
     snd (cancelTask s t) = Ok true /\
     exists w, selectByID (fst (cancelTask s t)) t = Some w /\
               status w = Failed /\ message w = "Task cancelled by user") /\
  (forall v, selectByID s t = Some v ->
     (status v = Completed \/ status v = Failed) ->
     fst (cancelTask s t) = s /\ exists e, snd (cancelTask s t) = Throw e) /\
  (selectByID s t = None ->
     fst (cancelTask s t) = s /\ exists e, snd (cancelTask s t) = Throw e).
Proof.
  split; [| split].
  - intros v Hv Hin. apply cancellable_spec in Hin.
    rewrite (cancelTask_ok s t v Hv Hin). simpl. split; [reflexivity |].
    rewrite selectByID_update_same, Hv.
    eexists. split; [reflexivity | split; reflexivity].
  - intros v Hv Hst. unfold cancelTask. rewrite Hv.
    destruct Hst as [-> | ->]; simpl; split; eauto.
  - intros Hn. unfold cancelTask. rewrite Hn. simpl. split; eauto.
Qed.

(** C10. Frame of cancel: a successful cancel writes exactly [status :=
    failed], [message := 'Task cancelled by user'] and [progress := 0]; every
    other column of the job (audio path, task code, file path, duration,
    creation time, ...) and every other row are left as they were. *)
Theorem cancelTask_frame (s : store) (t : nat) (v : video)
    (Hv : selectByID s t = Some v)
    (Hc : In (status v) [Waiting; Processing; Pending]) :
  selectByID (fst (cancelTask s t)) t =
    Some (mkVideo (id v) (name v) Failed 0 "Task cancelled by user"
            (created_at v) (model_id v) (voice_id v) (text_content v)
            (audio_path v) (file_path v) (duration v) (param v) (code v)) /\
  (forall u, u <> t -> selectByID (fst (cancelTask s t)) u = selectByID s u).
Proof.
  apply cancellable_spec in Hc.
  rewrite (cancelTask_ok s t v Hv Hc). simpl. split.
  - rewrite selectByID_update_same, Hv. reflexivity.
  - intros u Hu. apply selectByID_update_other. exact Hu.
Qed.

Lemma cancelTask_frame_witness :
  selectByID cancel_sample 3 = Some (hd (draft 0 None) cancel_sample) /\
  selectByID (fst (cancelTask cancel_sample 3)) 3 =
    Some (mkVideo 3 "clip" Failed 0 "Task cancelled by user" 100 1 (Some 1)
            "Hello" (Some "a1.wav") None None (Some "{}") (Some "h1")).
Proof.
  split; [reflexivity |].
  refine (proj1 (cancelTask_frame cancel_sample 3 _ eq_refl _)).
  simpl. right. right. left. reflexivity.
Defined.

(** C3 (claim as stated, refuted).  Retrying a failed job does not clear
    its remote handle ([code]) nor its audio reference. *)
Lemma retry_keeps_handle_and_audio :
  exists w, selectByID (fst (retryFailedTask failed_job 1)) 1 = Some w /\
            status w = Waiting /\
            code w = Some "h1" /\ audio_path w = Some "a1.wav".
Proof. eexists. split; [reflexivity | repeat split]. Qed.

(** C3 (amended).  Retrying a job whose status is exactly [failed] sets
    [status := waiting], [progress := 0] and [message := 'Retrying task...']
    and leaves every other column, in particular the remote handle [code]
    and the audio path, unchanged; retrying a job in any other status, or a
    missing one, throws and leaves the store unchanged. *)
Theorem retryFailedTask_spec (s : store) (t : nat) :
  (forall v, selectByID s t = Some v -> status v = Failed ->
     snd (retryFailedTask s t) = Ok true /\
     selectByID (fst (retryFailedTask s t)) t =
       Some (mkVideo (id v) (name v) Waiting 0 "Retrying task..."
               (created_at v) (model_id v) (voice_id v) (text_content v)
               (audio_path v) (file_path v) (duration v) (param v) (code v))) /\
  (forall v, selectByID s t = Some v -> status v <> Failed ->
     fst (retryFailedTask s t) = s /\ exists e, snd (retryFailedTask s t) = Throw e) /\
  (selectByID s t = None ->
     fst (retryFailedTask s t) = s /\ exists e, snd (retryFailedTask s t) = Throw e).
Proof.
  split; [| split].
  - intros v Hv Hf. rewrite (retryFailedTask_ok s t v Hv Hf). simpl.
    split; [reflexivity |]. rewrite selectByID_update_same, Hv. reflexivity.
  - intros v Hv Hf. unfold retryFailedTask. rewrite Hv.
    destruct (status v); simpl; try (split; eauto; fail). contradiction.
  - intros Hn. unfold retryFailedTask. rewrite Hn. simpl. split; eauto.
Qed.

(** C8 (code bug).  The enqueue route never enqueues: for every job,
    whatever its status, [POST /videos/:id/generate] fails with the
    [ReferenceError] and leaves the store and the [setImmediate] queue as
    they are; a [draft] job stays [draft] and a [failed] job stays
    [failed]. *)
Theorem generate_never_enqueues :
  (forall (s : store) (t : nat),
     generate s t = (s, Throw "videoDao is not defined", [])) /\
  (option_map status (selectByID (fst (fst (generate [draft 1 None] 1))) 1)
     = Some Draft) /\
  (option_map status (selectByID (fst (fst (generate failed_job 1))) 1)
     = Some Failed) /\
  (snd (generate [draft 1 None] 1) = []) /\
  (snd (fst (generate failed_job 1)) <> Ok tt).
Proof.
  split; [intros s t; reflexivity |].
  repeat split; simpl; try reflexivity. discriminate.
Qed.

(** ** Submission *)

(** C5 (claim as stated, refuted).  When the Face2Face submit answers a
    non-10000 code with [quota exceeded], the job is [failed] with that
    message, but its task code (the handle the poller uses) is set. *)
Lemma rejected_submit_sets_handle :
  exists w, selectByID (fst (synthesizeVideo waiting_job g_reject 1)) 1 = Some w /\
            status w = Failed /\ message w = "quota exceeded" /\
            code w = Some "u1".
Proof. eexists. split; [reflexivity | repeat split]. Qed.

(** C5 (amended).  When the row exists, its model resolves, its audio is
    available (stored or produced by TTS) and the submit call returns a code
    other than 10000, [synthesizeVideo] settles normally and leaves the job
    [failed] with the remote message (or [Task submission failed] when the
    remote message is empty), [file_path] null, the audio path it used, and
    the submitted request's [param] and task [code] recorded. *)
Theorem synthesizeVideo_rejected (s : store) (g : gateways) (vid : nat)
    (v : video) (m : f2f_model) (ap : string) (r : api_result)
    (Hv : selectByID s vid = Some v)
    (Hm : g_model g (model_id v) = Some m)
    (Ha : resolve_audio g v m = Ok ap)
    (Hr : g_make_video g ap (m_video_path m) (g_uuid g) = Ok r)
    (Hc : r_code r <> 10000%Z) :
  snd (synthesizeVideo s g vid) = Ok vid /\
  selectByID (fst (synthesizeVideo s g vid)) vid =
    Some (mkVideo (id v) (name v) Failed (progress v)
            (js_or_msg (r_msg r) "Task submission failed")
            (created_at v) (model_id v) (voice_id v) (text_content v)
            (Some ap) None (duration v)
            (Some (param_json ap (m_video_path m) (g_uuid g)))
            (Some (g_uuid g))).
Proof.
  unfold synthesizeVideo.
  rewrite selectByID_update_same, Hv. simpl option_map. cbv iota beta.
  change (model_id (apply_patch _ v)) with (model_id v). rewrite Hm.
  change (resolve_audio g (apply_patch _ v) m) with (resolve_audio g v m).
  rewrite Ha, Hr.
  apply Z.eqb_neq in Hc. rewrite Hc. simpl.
  split; [reflexivity |].
  rewrite selectByID_update_same, selectByID_update_same, Hv. reflexivity.
Qed.

Lemma synthesizeVideo_rejected_witness :
  snd (synthesizeVideo waiting_job g_reject 1) = Ok 1 /\
  selectByID (fst (synthesizeVideo waiting_job g_reject 1)) 1 =
    Some (mkVideo 1 "clip" Failed 0 "quota exceeded" 100 1 (Some 1) "Hello"
            (Some "a1.wav") None None
            (Some (param_json "a1.wav" "m1.mp4" "u1")) (Some "u1")).
Proof.
  refine (synthesizeVideo_rejected waiting_job g_reject 1
            (hd (draft 0 None) waiting_job) (mkModel "m1.mp4" (Some 1))
            "a1.wav" (mkApiResult 10001 "quota exceeded")
            eq_refl eq_refl eq_refl eq_refl _).
  vm_compute. discriminate.
Defined.

(** ** Polling *)

Lemma selectByID_nodup (s : store) (v : video) :
  NoDup (map id s) -> In v s -> selectByID s (id v) = Some v.
Proof.
  induction s as [| x s IH]; simpl; intros Hnd Hin; [contradiction |].
  inversion Hnd as [| ? ? Hx Hnd']; subst.
  destruct Hin as [-> | Hin].
  - rewrite Nat.eqb_refl. reflexivity.
  - destruct (Nat.eqb (id x) (id v)) eqn:E.
    + apply Nat.eqb_eq in E. exfalso. apply Hx. rewrite E.
      apply in_map. exact Hin.
    + apply IH; assumption.
Qed.

Lemma findFirstByStatus_some (s : store) (st : video_status) (v : video) :
  findFirstByStatus s st = Some v -> In v s /\ status v = st.
Proof.
  unfold findFirstByStatus, selectByStatus.
  induction s as [| x s IH]; simpl; [discriminate |].
  destruct (status_eqb (status x) st) eqn:E; simpl.
  - intros [= <-]. split; [left; reflexivity | apply status_eqb_spec; exact E].
  - intros H. destruct (IH H). split; [right |]; assumption.
Qed.

Lemma pollPending_result (s : store) (g : gateways) (v : video) :
  selectByID s (id v) = Some v ->
  exists w, poll_result g v w /\ selectByID (pollPending s g v) (id v) = Some w.
Proof.
  intros Hv. unfold pollPending.
  destruct (g_video_status g (code v)) as [r | e] eqn:Hp.
  - destruct (existsb (Z.eqb (sr_code r)) [9999; 10002; 10003]%Z) eqn:Hf.
    { eexists. split; [eapply PollFailCode; eassumption |].
      unfold updateStatus. rewrite selectByID_update_same, Hv. reflexivity. }
    destruct (Z.eqb (sr_code r) 10000) eqn:H0.
    2:{ exists v. split; [| exact Hv].
        eapply PollUnknownCode; [eassumption | exact Hf |].
        apply Z.eqb_neq. exact H0. }
    apply Z.eqb_eq in H0.
    destruct (Z.eqb (d_status (sr_data r)) 1) eqn:H1.
    { apply Z.eqb_eq in H1. eexists. split; [eapply PollRunning; eassumption |].
      unfold updateStatus. rewrite selectByID_update_same, Hv. reflexivity. }
    destruct (Z.eqb (d_status (sr_data r)) 2) eqn:H2.
    { apply Z.eqb_eq in H2. unfold handleVideoCompletion.
      destruct (g_duration g _) as [dur | e] eqn:Hd.
      - eexists. split; [eapply PollDone; eassumption |].
        rewrite selectByID_update_same, Hv. reflexivity.
      - eexists. split; [eapply PollProbeFailed; eassumption |].
        unfold updateStatus. rewrite selectByID_update_same, Hv. reflexivity. }
    destruct (Z.eqb (d_status (sr_data r)) 3) eqn:H3.
    { apply Z.eqb_eq in H3. eexists. split; [eapply PollRemoteFailed; eassumption |].
      unfold updateStatus. rewrite selectByID_update_same, Hv. reflexivity. }
    exists v. split; [| exact Hv].
    eapply PollUnknownState; [eassumption | exact H0 |].
    apply Z.eqb_neq in H1, H2, H3. simpl. intuition.
  - eexists. split; [eapply PollThrew; eassumption |].
    unfold updateStatus. rewrite selectByID_update_same, Hv. reflexivity.
Qed.

(** C6 (claim as stated, refuted).  A poll answered with code 10001 leaves
    the pending job untouched: it is neither completed nor failed, and its
    progress and message are not updated to the remote ones (40,
    [rendering]). *)
Lemma poll_unknown_code_leaves_job :
  exists w, selectByID (fst (processTaskQueue pending_job g_busy)) 1 = Some w /\
            status w = Pending /\ progress w = 0 /\
            message w = "Task submitted successfully" /\
            progress w <> 40 /\ message w <> "rendering".
Proof. eexists. split; [reflexivity |]. repeat split; discriminate. Qed.

(** C6 (amended).  A tick that finds a pending job polls it and leaves it in
    exactly one of the outcomes of [poll_result]: pending with the remote
    progress and message (data status 1); completed with the result path,
    probed duration, remote message and progress (data status 2, probe
    succeeds); failed with [Status check failed: e] (poll throws), with the
    response message (codes 9999, 10002, 10003), with [Completion handling
    failed: e] (probe throws) or with the data message (data status 3); or
    unchanged (any other response code, or data status outside 1, 2, 3). *)
Theorem processTaskQueue_polls_pending (s : store) (g : gateways) (v : video)
    (Hnd : NoDup (map id s))
    (Hp : findFirstByStatus s Pending = Some v) :
  snd (processTaskQueue s g) = [] /\
  exists w, poll_result g v w /\
            selectByID (fst (processTaskQueue s g)) (id v) = Some w.
Proof.
  unfold processTaskQueue, processPendingVideos. rewrite Hp. simpl.
  split; [reflexivity |].
  apply pollPending_result.
  apply findFirstByStatus_some in Hp. apply selectByID_nodup; tauto.
Qed.

Lemma processTaskQueue_polls_pending_witness :
  snd (processTaskQueue pending_job g_busy) = [] /\
  exists w, poll_result g_busy (hd (draft 0 None) pending_job) w /\
    selectByID (fst (processTaskQueue pending_job g_busy)) 1 = Some w.
Proof.
  apply (processTaskQueue_polls_pending pending_job g_busy).
  - simpl. constructor; [simpl; tauto | constructor].
  - reflexivity.
Defined.

(** ** Creation order *)

Lemma created_sorted_map (f : video -> video) (s : store) :
  (forall v, created_at (f v) = created_at v) ->
  created_sorted s -> created_sorted (map f s).
Proof.
  intros Hf. unfold created_sorted.
  induction s as [| v s IH]; simpl; intros H; [constructor |].
  inversion H as [| ? ? Hs Hall]; subst. constructor.
  - apply IH. exact Hs.
  - apply Forall_map. eapply Forall_impl; [| exact Hall].
    intros x Hx. simpl. rewrite !Hf. exact Hx.
Qed.

Lemma created_sorted_update (s : store) (t : nat) (p : patch) :
  created_sorted s -> created_sorted (update s t p).
Proof.
  apply created_sorted_map. intros v. destruct (Nat.eqb (id v) t); reflexivity.
Qed.

Lemma created_sorted_app (l1 l2 : store) (a b : video) :
  created_sorted (app l1 l2) -> In a l1 -> In b l2 -> created_at a <= created_at b.
Proof.
  unfold created_sorted. induction l1 as [| x l1 IH]; simpl; [contradiction |].
  intros H Ha Hb. inversion H as [| ? ? Hs Hall]; subst.
  destruct Ha as [-> | Ha].
  - rewrite Forall_forall in Hall. apply Hall, in_or_app. right. exact Hb.
  - apply IH; assumption.
Qed.

Lemma created_sorted_insert (s : store) (v : video) (now : nat) :
  created_sorted s -> (forall x, In x s -> created_at x <= now) ->
  created_sorted (insert s v now).
Proof.
  unfold created_sorted, insert.
  induction s as [| x s IH]; simpl; intros H Hle.
  - constructor; constructor.
  - inversion H as [| ? ? Hs Hall]; subst. constructor.
    + apply IH; [exact Hs | intros y Hy; apply Hle; right; exact Hy].
    + apply Forall_app. split; [exact Hall |].
      constructor; [simpl; apply Hle; left; reflexivity | constructor].
Qed.

Ltac settle_sorted :=
  repeat match goal with
  | |- context [match ?x with _ => _ end] => destruct x
  end; simpl;
  unfold updateStatus; repeat apply created_sorted_update; assumption.

Lemma synthesizeVideo_sorted (s : store) (g : gateways) (vid : nat) :
  created_sorted s -> created_sorted (fst (synthesizeVideo s g vid)).
Proof.
  intros H. unfold synthesizeVideo. settle_sorted.
Qed.

Lemma synth_begin_sorted (s : store) (g : gateways) (vid : nat) :
  created_sorted s -> created_sorted (fst (synth_begin s g vid)).
Proof.
  intros H. unfold synth_begin. settle_sorted.
Qed.

Lemma synth_resume_sorted (s : store) (g : gateways) (c : suspended) :
  created_sorted s -> created_sorted (fst (synth_resume s g c)).
Proof.
  intros H. unfold synth_resume. settle_sorted.
Qed.

Lemma processTaskQueue_sorted (s : store) (g : gateways) :
  created_sorted s -> created_sorted (fst (processTaskQueue s g)).
Proof.
  intros H. unfold processTaskQueue, processPendingVideos.
  destruct (findFirstByStatus s Pending) as [v |]; simpl; [| exact H].
  unfold pollPending, handleVideoCompletion. settle_sorted.
Qed.

(** Every event keeps the rows ordered by creation time, as long as the
    clock does not go backwards between inserts. *)
Lemma step_sorted (ls : loop_state) (e : event) :
  created_sorted (ls_store ls) -> clock_ok ls e ->
  created_sorted (ls_store (step ls e)).
Proof.
  intros H Hc. unfold step. destruct (ls_halted ls); [exact H |].
  destruct e as [g | g | k g | vid | vid | vid | v now]; simpl in *.
  - pose proof (processTaskQueue_sorted _ g H) as Hq.
    destruct (processTaskQueue (ls_store ls) g). exact Hq.
  - destruct (ls_immediates ls) as [| vid rest]; [exact H |].
    pose proof (synth_begin_sorted _ g vid H) as Hs.
    destruct (synth_begin (ls_store ls) g vid) as [s' [? | ?]]; exact Hs.
  - destruct (nth_error (ls_awaiting ls) k) as [c |]; [| exact H].
    pose proof (synth_resume_sorted _ g c H) as Hs.
    destruct (synth_resume (ls_store ls) g c) as [s' [? | ?]]; exact Hs.
  - exact H.
  - unfold cancelTask. destruct (selectByID (ls_store ls) vid); [| exact H].
    destruct (negb _); [exact H | apply created_sorted_update; exact H].
  - unfold retryFailedTask. destruct (selectByID (ls_store ls) vid); [| exact H].
    destruct (negb _); [exact H | apply created_sorted_update; exact H].
  - apply created_sorted_insert; assumption.
Qed.

Lemma findFirstByStatus_min (s : store) (st : video_status) (w : video) :
  created_sorted s -> findFirstByStatus s st = Some w ->
  forall x, In x s -> status x = st -> created_at w <= created_at x.
Proof.
  unfold created_sorted, findFirstByStatus, selectByStatus.
  induction s as [| v s IH]; simpl; [discriminate |].
  intros H Hf x Hx Hst. apply StronglySorted_inv in H as [Hs Hall].
  destruct (status_eqb (status v) st) eqn:E; simpl in Hf.
  - injection Hf as <-. destruct Hx as [-> | Hx]; [lia |].
    rewrite Forall_forall in Hall. apply Hall. exact Hx.
  - destruct Hx as [-> | Hx].
    + rewrite Hst in E. destruct st; discriminate.
    + eapply IH; eassumption.
Qed.

Lemma nodup_same_id (s : store) (a b : video) :
  NoDup (map id s) -> In a s -> In b s -> id a = id b -> a = b.
Proof.
  induction s as [| x s IH]; simpl; [contradiction |].
  intros Hnd Ha Hb Hab. inversion Hnd as [| ? ? Hx Hnd']; subst.
  destruct Ha as [-> | Ha], Hb as [-> | Hb]; try reflexivity.
  - exfalso. apply Hx. rewrite Hab. apply in_map. exact Hb.
  - exfalso. apply Hx. rewrite <- Hab. apply in_map. exact Ha.
  - apply IH; assumption.
Qed.

(** C2. FIFO promotion: when no job is pending or processing and two
    waiting jobs A, B were created with [created_at A < created_at B], a tick
    hands the first waiting row W to [synthesizeVideo] (twice: once from
    [processPendingVideos], once from [processTaskQueue]); W has the earliest
    [created_at] of all waiting jobs, is not B, and is A when A is the
    earliest-created waiting job.  Rows are in rowid order, which is creation
    order ([step_sorted]). *)
Theorem tick_promotes_earliest (s : store) (g : gateways) (A B : video)
    (Hsort : created_sorted s) (Hnd : NoDup (map id s))
    (HA : In A s) (HB : In B s)
    (HAw : status A = Waiting) (HBw : status B = Waiting)
    (Hlt : created_at A < created_at B)
    (Hnp : findFirstByStatus s Pending = None)
    (Hnq : findFirstByStatus s Processing = None) :
  exists W, findFirstByStatus s Waiting = Some W /\
    processTaskQueue s g = (s, [id W; id W]) /\
    status W = Waiting /\
    (forall X, In X s -> status X = Waiting -> created_at W <= created_at X) /\
    id W <> id B /\
    ((forall X, In X s -> status X = Waiting -> id X <> id A ->
        created_at A < created_at X) -> W = A).
Proof.
  destruct (findFirstByStatus s Waiting) as [W |] eqn:Hw.
  2:{ exfalso. unfold findFirstByStatus, selectByStatus in Hw.
      destruct (filter _ s) eqn:Hf; [| discriminate].
      assert (Hin : In A (filter (fun v => status_eqb (status v) Waiting) s)).
      { apply filter_In. split; [exact HA | rewrite HAw; reflexivity]. }
      rewrite Hf in Hin. contradiction. }
  pose proof (findFirstByStatus_some _ _ _ Hw) as [HWin HWst].
  pose proof (findFirstByStatus_min _ _ _ Hsort Hw) as Hmin.
  exists W. split; [reflexivity |]. split.
  { unfold processTaskQueue, processPendingVideos, processNextWaitingVideo.
    rewrite Hnp, Hw. reflexivity. }
  split; [exact HWst |]. split; [exact Hmin |]. split.
  - intros Heq. assert (W = B) by (apply (nodup_same_id s); assumption).
    subst W. specialize (Hmin A HA HAw). lia.
  - intros Hearliest.
    destruct (Nat.eq_dec (id W) (id A)) as [E | E].
    + apply (nodup_same_id s); assumption.
    + specialize (Hearliest W HWin HWst E). specialize (Hmin A HA HAw). lia.
Qed.

Lemma tick_promotes_earliest_witness :
  exists W, findFirstByStatus two_waiting Waiting = Some W /\
    processTaskQueue two_waiting g_running = (two_waiting, [id W; id W]) /\
    status W = Waiting /\
    (forall X, In X two_waiting -> status X = Waiting -> created_at W <= created_at X) /\
    id W <> id (nth 1 two_waiting (draft 0 None)) /\
    ((forall X, In X two_waiting -> status X = Waiting ->
        id X <> id (hd (draft 0 None) two_waiting) ->
        created_at (hd (draft 0 None) two_waiting) < created_at X) ->
     W = hd (draft 0 None) two_waiting).
Proof.
  apply (tick_promotes_earliest two_waiting g_running).
  - unfold created_sorted, two_waiting. repeat constructor.
  - simpl. repeat constructor; simpl; intuition discriminate.
  - simpl. left. reflexivity.
  - simpl. right. left. reflexivity.
  - reflexivity.
  - reflexivity.
  - simpl. lia.
  - reflexivity.
  - reflexivity.
Defined.

(** ** Queue position *)

Lemma number_from_app (l1 l2 : list video) (x : video) (i n : nat) :
  number_from (app l1 (x :: l2)) i n =
  app (number_from l1 i n)
      ((x, i + List.length l1 + 1, n) :: number_from l2 (S (i + List.length l1)) n).
Proof.
  revert i. induction l1 as [| y l1 IH]; intros i; simpl.
  - rewrite Nat.add_0_r. reflexivity.
  - rewrite IH. replace (S i + List.length l1) with (i + S (List.length l1)) by lia.
    reflexivity.
Qed.

Lemma find_number_from_none (l : list video) (i n k : nat) :
  (forall x, In x l -> id x <> k) ->
  find (fun '(t, _, _) => Nat.eqb (id t) k) (number_from l i n) = None.
Proof.
  revert i. induction l as [| y l IH]; intros i H; simpl; [reflexivity |].
  destruct (Nat.eqb (id y) k) eqn:E.
  - apply Nat.eqb_eq in E. exfalso. apply (H y); [left; reflexivity | exact E].
  - apply IH. intros x Hx. apply H. right. exact Hx.
Qed.

Lemma find_app_none {A} (f : A -> bool) (l1 l2 : list A) :
  find f l1 = None -> find f (app l1 l2) = find f l2.
Proof.
  induction l1 as [| y l1 IH]; simpl; [reflexivity |].
  destruct (f y); [discriminate | exact IH].
Qed.

Lemma filter_all_true {A} (f : A -> bool) (l : list A) :
  (forall x, In x l -> f x = true) -> filter f l = l.
Proof.
  induction l as [| y l IH]; simpl; intros H; [reflexivity |].
  rewrite (H y (or_introl eq_refl)), IH; [reflexivity |].
  intros x Hx. apply H. right. exact Hx.
Qed.

Lemma filter_all_false {A} (f : A -> bool) (l : list A) :
  (forall x, In x l -> f x = false) -> filter f l = [].
Proof.
  induction l as [| y l IH]; simpl; intros H; [reflexivity |].
  rewrite (H y (or_introl eq_refl)). apply IH.
  intros x Hx. apply H. right. exact Hx.
Qed.

Lemma nodup_prefix_id (pre post : store) (j x : video) :
  NoDup (map id (app pre (j :: post))) -> In x pre -> id x <> id j.
Proof.
  rewrite map_app. simpl. intros Hnd Hx Heq.
  apply NoDup_remove_2 in Hnd. apply Hnd. apply in_or_app. left.
  rewrite <- Heq. apply in_map. exact Hx.
Qed.

(** C7 (claim as stated, refuted).  Two waiting jobs created in the same
    millisecond: the second is reported at position 2, while 1 + the number
    of waiting jobs with an earlier [created_at] is 1. *)
Lemma queue_position_tie :
  queuePosition tied_waiting 2 = Some 2 /\
  spec_queue_position tied_waiting (nth 1 tied_waiting (draft 0 None)) = 1.
Proof. split; reflexivity. Qed.

(** C7 (amended).  The queue position of a waiting job j is 1 + the number
    of waiting rows stored before j (rowid order, recomputed from the store
    on each query); when rows are in creation order and no other waiting job
    shares j's [created_at], this is 1 + the number of waiting jobs with an
    earlier [created_at]. *)
Theorem queuePosition_spec (s pre post : store) (j : video)
    (Hs : s = app pre (j :: post))
    (Hnd : NoDup (map id s))
    (Hw : status j = Waiting) :
  queuePosition s (id j) =
    Some (1 + List.length (selectByStatus pre Waiting)) /\
  (created_sorted s ->
   (forall x, In x s -> status x = Waiting -> id x <> id j ->
      created_at x <> created_at j) ->
   queuePosition s (id j) = Some (spec_queue_position s j)).
Proof.
  assert (Hsplit : selectByStatus s Waiting =
            app (selectByStatus pre Waiting) (j :: selectByStatus post Waiting)).
  { subst s. unfold selectByStatus. rewrite filter_app. simpl.
    rewrite Hw. reflexivity. }
  assert (Hpos : queuePosition s (id j) =
                 Some (1 + List.length (selectByStatus pre Waiting))).
  { unfold queuePosition, getWaitingTasks. rewrite Hsplit, number_from_app.
    rewrite find_app_none.
    - simpl. rewrite Nat.eqb_refl. f_equal. lia.
    - apply find_number_from_none. intros x Hx.
      unfold selectByStatus in Hx. apply filter_In in Hx as [Hx _].
      subst s. apply (nodup_prefix_id pre post j x Hnd Hx). }
  split; [exact Hpos |].
  intros Hsort Hdistinct. rewrite Hpos. f_equal.
  unfold spec_queue_position. rewrite Hsplit, filter_app. simpl.
  rewrite Nat.ltb_irrefl.
  rewrite (filter_all_false _ (selectByStatus post Waiting)).
  - rewrite filter_all_true; [rewrite app_nil_r; reflexivity |].
    intros x Hx. unfold selectByStatus in Hx. apply filter_In in Hx as [Hx Hxw].
    apply status_eqb_spec in Hxw.
    assert (Hle : created_at x <= created_at j).
    { apply (created_sorted_app pre (j :: post)); [subst s; exact Hsort | exact Hx | left; reflexivity]. }
    assert (Hne : created_at x <> created_at j).
    { apply Hdistinct; [subst s; apply in_or_app; left; exact Hx | exact Hxw |].
      subst s. apply (nodup_prefix_id pre post j x Hnd Hx). }
    apply Nat.ltb_lt. lia.
  - intros x Hx. unfold selectByStatus in Hx. apply filter_In in Hx as [Hx _].
    assert (Hle : created_at j <= created_at x).
    { apply (created_sorted_app (app pre [j]) post).
      - rewrite <- app_assoc. subst s. exact Hsort.
      - apply in_or_app. right. left. reflexivity.
      - exact Hx. }
    apply Nat.ltb_ge. exact Hle.
Qed.

Lemma queuePosition_spec_witness :
  queuePosition two_waiting 2 = Some 2 /\
  (created_sorted two_waiting ->
   (forall x, In x two_waiting -> status x = Waiting -> id x <> 2 ->
      created_at x <> 200) ->
   queuePosition two_waiting 2 =
     Some (spec_queue_position two_waiting (nth 1 two_waiting (draft 0 None)))).
Proof.
  apply (queuePosition_spec two_waiting [hd (draft 0 None) two_waiting] []
           (nth 1 two_waiting (draft 0 None))); [reflexivity | | reflexivity].
  simpl. repeat constructor; simpl; intuition discriminate.
Defined.

(** ** Single flight and failure containment *)

(** C1 (code bug).  Single flight does not hold.  A tick looks only for
    [pending] rows; a job in [processing] (its [synthesizeVideo] awaiting the
    TTS or submit call) is not seen, so the tick promotes the next waiting
    job.  From two waiting jobs, the tick that ends [overlap_pre] leaves both
    in [processing]; once their submit calls are accepted, the next tick
    (which polls job 1 as still running) ends with both [pending]. *)
Theorem single_flight_violated :
  map status (ls_store (step (run (start_with two_waiting) overlap_pre)
                          (Tick g_running))) = [Processing; Processing] /\
  in_flight (ls_store (step (run (start_with two_waiting) overlap_pre)
                         (Tick g_running))) = 2 /\
  map status (ls_store (step (run (start_with two_waiting)
                                (app overlap_pre (Tick g_running :: overlap_settle)))
                          (Tick g_running))) = [Pending; Pending] /\
  in_flight (ls_store (step (run (start_with two_waiting)
                               (app overlap_pre (Tick g_running :: overlap_settle)))
                         (Tick g_running))) = 2.
Proof. vm_compute. repeat split. Qed.


(** ** Further properties of the store *)

Lemma map_id_update (s : store) (t : nat) (p : patch) :
  map id (update s t p) = map id s.
Proof.
  induction s as [| v s IH]; simpl; [reflexivity |].
  rewrite IH. destruct (Nat.eqb (id v) t); reflexivity.
Qed.

Lemma selectByID_none (s : store) (t : nat) :
  ~ In t (map id s) -> selectByID s t = None.
Proof.
  induction s as [| v s IH]; simpl; intros H; [reflexivity |].
  destruct (Nat.eqb (id v) t) eqn:E.
  - apply Nat.eqb_eq in E. tauto.
  - apply IH. tauto.
Qed.

(** [videoDao.update] then [selectByID]: the updated row reads back with
    the patch applied, every other id reads back as before, and the ids and
    their order are unchanged. *)
Theorem dao_update_lookup (s : store) (t : nat) (p : patch) :
  selectByID (update s t p) t = option_map (apply_patch p) (selectByID s t) /\
  (forall u, u <> t -> selectByID (update s t p) u = selectByID s u) /\
  map id (update s t p) = map id s.
Proof.
  split; [apply selectByID_update_same |].
  split; [intros u Hu; apply selectByID_update_other; exact Hu |].
  apply map_id_update.
Qed.

(** [videoDao.insert] with a fresh rowid then [selectByID]: the new row
    reads back with [created_at] set to the insertion time, every other id
    reads back as before, and the ids stay distinct. *)
Theorem dao_insert_lookup (s : store) (v : video) (now : nat)
    (Hnd : NoDup (map id s)) (Hfresh : ~ In (id v) (map id s)) :
  selectByID (insert s v now) (id v) =
    Some (mkVideo (id v) (name v) (status v) (progress v) (message v) now
            (model_id v) (voice_id v) (text_content v) (audio_path v)
            (file_path v) (duration v) (param v) (code v)) /\
  (forall u, u <> id v -> selectByID (insert s v now) u = selectByID s u) /\
  NoDup (map id (insert s v now)).
Proof.
  unfold insert. split; [| split].
  - unfold selectByID. rewrite find_app_none.
    + simpl. rewrite Nat.eqb_refl. reflexivity.
    + apply selectByID_none. exact Hfresh.
  - intros u Hu. unfold selectByID.
    induction s as [| x s IH]; simpl.
    + apply Nat.eqb_neq in Hu. rewrite Nat.eqb_sym, Hu. reflexivity.
    + destruct (Nat.eqb (id x) u); [reflexivity |].
      apply IH; inversion Hnd; simpl in Hfresh; tauto.
  - rewrite map_app. simpl. apply NoDup_app; [exact Hnd | repeat constructor; simpl; tauto |].
    intros x Hx [Hy | []]. simpl in Hy. subst x. contradiction.
Qed.

Lemma dao_insert_lookup_witness :
  selectByID (insert two_waiting (draft 3 None) 300) 3 =
    Some (mkVideo 3 "clip" Draft 0 "" 300 1 (Some 1) "Hello" None None None None None) /\
  (forall u, u <> 3 -> selectByID (insert two_waiting (draft 3 None) 300) u =
                       selectByID two_waiting u) /\
  NoDup (map id (insert two_waiting (draft 3 None) 300)).
Proof.
  apply (dao_insert_lookup two_waiting (draft 3 None) 300).
  - simpl. repeat constructor; simpl; intuition discriminate.
  - simpl. intuition discriminate.
Defined.

Lemma selectByID_remove_same (s : store) (t : nat) :
  selectByID (remove s t) t = None.
Proof.
  unfold remove, selectByID.
  induction s as [| v s IH]; simpl; [reflexivity |].
  destruct (Nat.eqb (id v) t) eqn:E; simpl; [exact IH |].
  rewrite E. exact IH.
Qed.

Lemma selectByID_remove_other (s : store) (t u : nat) :
  u <> t -> selectByID (remove s t) u = selectByID s u.
Proof.
  unfold remove, selectByID. intros Hu.
  induction s as [| v s IH]; simpl; [reflexivity |].
  destruct (Nat.eqb (id v) t) eqn:E; simpl.
  - apply Nat.eqb_eq in E. rewrite IH. subst t.
    destruct (Nat.eqb (id v) u) eqn:E2; [| reflexivity].
    apply Nat.eqb_eq in E2. congruence.
  - destruct (Nat.eqb (id v) u); [reflexivity | exact IH].
Qed.

(** [videoDao.remove]: the removed id no longer reads back, every other id
    reads back as before. *)
Theorem dao_remove_lookup (s : store) (t : nat) :
  selectByID (remove s t) t = None /\
  (forall u, u <> t -> selectByID (remove s t) u = selectByID s u).
Proof.
  split; [apply selectByID_remove_same |].
  intros u Hu. apply selectByID_remove_other. exact Hu.
Qed.

(** ** Task statistics and the waiting list *)

(** [getTaskStats]: the six per-status counts add up to the number of rows,
    so [total] counts every job exactly once. *)
Theorem getTaskStats_total (s : store) :
  st_total (getTaskStats s) = List.length s.
Proof.
  unfold getTaskStats, selectByStatus. simpl.
  induction s as [| v s IH]; simpl; [reflexivity |].
  destruct (status v); simpl; lia.
Qed.

Lemma number_from_shape (l : list video) (i n : nat) :
  map (fun '(t, _, _) => t) (number_from l i n) = l /\
  map (fun '(_, q, _) => q) (number_from l i n) = seq (S i) (List.length l) /\
  Forall (fun '(_, _, m) => m = n) (number_from l i n).
Proof.
  revert i. induction l as [| x l IH]; intros i; simpl; [repeat constructor |].
  destruct (IH (S i)) as [H1 [H2 H3]].
  rewrite H1, H2, Nat.add_1_r. repeat split. constructor; [reflexivity | exact H3].
Qed.

(** [getWaitingTasks]: the entries are the waiting jobs in table order,
    numbered [1, 2, ..., n], each with [totalInQueue = n], where n is the
    number of waiting jobs. *)
Theorem getWaitingTasks_numbering (s : store) :
  map (fun '(t, _, _) => t) (getWaitingTasks s) = selectByStatus s Waiting /\
  map (fun '(_, q, _) => q) (getWaitingTasks s) =
    seq 1 (List.length (selectByStatus s Waiting)) /\
  Forall (fun '(_, _, m) => m = List.length (selectByStatus s Waiting))
    (getWaitingTasks s).
Proof. unfold getWaitingTasks. apply number_from_shape. Qed.

(** ** Task details and deletion *)

Lemma find_exists {A} (f : A -> bool) (l : list A) (y : A) :
  In y l -> f y = true -> exists x, find f l = Some x.
Proof.
  intros Hy Hf. destruct (find f l) as [x |] eqn:E; [exists x; reflexivity |].
  exfalso. pose proof (find_none f l E y Hy). congruence.
Qed.

Lemma selectByID_in_store (s : store) (t : nat) (v : video) :
  selectByID s t = Some v -> In v s.
Proof. unfold selectByID. intros H. apply find_some in H. tauto. Qed.

Lemma selectByID_id_eq (s : store) (t : nat) (v : video) :
  selectByID s t = Some v -> id v = t.
Proof.
  unfold selectByID. intros H. apply find_some in H as [_ H].
  apply Nat.eqb_eq. exact H.
Qed.

Lemma find_none_ok (str : string) (l : list (video * nat * nat)) :
  find (fun '(t, _, _) => js_strict_eq_id (id t) (JStr str)) l = None.
Proof. induction l as [| [[t q] m] l IH]; simpl; [reflexivity | exact IH]. Qed.

(** [getTaskDetails]: a missing id gives [null]; called with the string id
    of the [GET /tasks/:id] route, the waiting job is found but
    [t.id === taskId] never holds, so no [queuePosition] or [totalInQueue]
    is ever reported; called with a numeric id of a waiting job, both are
    reported, [totalInQueue] being the number of waiting jobs. *)
Theorem getTaskDetails_queue_info (s : store) :
  (forall k, selectByID_js s k = None -> getTaskDetails s k = None) /\
  (forall str v, selectByID_js s (JStr str) = Some v ->
     exists d, getTaskDetails s (JStr str) = Some d /\ td_id d = id v /\
       td_status d = status v /\
       td_queuePosition d = None /\ td_totalInQueue d = None) /\
  (forall n v, selectByID s n = Some v -> status v = Waiting ->
     exists d, getTaskDetails s (JNum n) = Some d /\
       td_queuePosition d = queuePosition s n /\ queuePosition s n <> None /\
       td_totalInQueue d = Some (List.length (selectByStatus s Waiting))).
Proof.
  split; [| split].
  - intros k Hk. unfold getTaskDetails. rewrite Hk. reflexivity.
  - intros str v Hv. unfold getTaskDetails. rewrite Hv.
    eexists. split; [reflexivity |]. simpl. repeat split.
    + destruct (status_eqb (status v) Waiting); [| reflexivity].
      rewrite (find_none_ok str). reflexivity.
    + destruct (status_eqb (status v) Waiting); [| reflexivity].
      rewrite (find_none_ok str). reflexivity.
  - intros n v Hv Hw. unfold getTaskDetails.
    replace (selectByID_js s (JNum n)) with (Some v) by (symmetry; exact Hv).
    rewrite Hw. simpl status_eqb. cbv iota.
    pose proof (number_from_shape (selectByStatus s Waiting) 0
                  (List.length (selectByStatus s Waiting))) as [H1 [_ H3]].
    assert (Hin : In v (selectByStatus s Waiting)).
    { apply filter_In. split; [exact (selectByID_in_store s n v Hv) |].
      rewrite Hw. reflexivity. }
    rewrite <- H1 in Hin. apply in_map_iff in Hin as [[[t q] m] [Ht Hin]].
    simpl in Ht. subst t.
    destruct (find_exists (fun '(t, _, _) => Nat.eqb (id t) n)
                (getWaitingTasks s) _ Hin) as [[[t' q'] m'] Hf].
    { simpl. apply Nat.eqb_eq. exact (selectByID_id_eq s n v Hv). }
    unfold queuePosition. cbn [js_strict_eq_id]. rewrite Hf.
    eexists. split; [reflexivity |]. simpl. repeat split; [discriminate |].
    apply find_some in Hf as [Hf _]. unfold getWaitingTasks in Hf.
    rewrite Forall_forall in H3. apply H3 in Hf. simpl in Hf. rewrite Hf.
    reflexivity.
Qed.

Lemma unlink_asset_cases (ex : string -> bool) (un : string -> outcome unit)
    (dir : string) (col : option string) :
  (forall p, In p (fst (unlink_asset ex un dir col)) ->
     ex p = true /\ un p = Ok tt /\
     exists f, col = Some f /\ f <> "" /\ p = path_join dir f) /\
  (forall e, snd (unlink_asset ex un dir col) = Throw e ->
     fst (unlink_asset ex un dir col) = [] /\
     exists f, col = Some f /\ f <> "" /\
       ex (path_join dir f) = true /\ un (path_join dir f) = Throw e) /\
  ((forall p, un p = Ok tt) -> snd (unlink_asset ex un dir col) = Ok tt).
Proof.
  unfold unlink_asset.
  destruct col as [f |]; simpl; [| repeat split; intros; try contradiction; discriminate].
  destruct (String.eqb f "") eqn:Ee; simpl;
    [repeat split; intros; try contradiction; discriminate |].
  apply String.eqb_neq in Ee.
  destruct (ex (path_join dir f)) eqn:Ex;
    [| simpl; repeat split; intros; try contradiction; discriminate].
  destruct (un (path_join dir f)) as [[] | e0] eqn:Eu; simpl.
  - split; [| split].
    + intros p [<- | []]. repeat split; try assumption. exists f. auto.
    + intros e He. discriminate.
    + reflexivity.
  - split; [| split].
    + intros p [].
    + intros e He. injection He as <-. split; [reflexivity |].
      exists f. auto.
    + intros Hall. rewrite Hall in Eu. discriminate.
Qed.

(** [deleteVideo]: deleting a missing video throws and touches nothing.
    For an existing one, every file it unlinks is an existing asset file of
    the job that [unlinkSync] removed; either it returns [true] with the row
    removed and every other row kept, or an [unlinkSync] call on one of the
    job's existing asset files threw, and the error is rethrown with the
    table unchanged (a file unlinked before stays unlinked).  When
    [unlinkSync] never throws, it returns [true]. *)
Theorem deleteVideo_spec (s : store) (assetModel assetTts : string)
    (existsSync : string -> bool) (unlinkSync : string -> outcome unit)
    (vid : nat) :
  (selectByID s vid = None ->
     deleteVideo s assetModel assetTts existsSync unlinkSync vid =
       (s, [], Throw ("Video not found: " ++ nat_to_string vid))) /\
  (forall v, selectByID s vid = Some v ->
     let r := deleteVideo s assetModel assetTts existsSync unlinkSync vid in
     (forall p, In p (snd (fst r)) ->
        existsSync p = true /\ unlinkSync p = Ok tt /\
        asset_file assetModel assetTts v p) /\
     ((snd r = Ok true /\ selectByID (fst (fst r)) vid = None /\
       (forall u, u <> vid -> selectByID (fst (fst r)) u = selectByID s u)) \/
      (exists p e, snd r = Throw e /\ fst (fst r) = s /\
        existsSync p = true /\ unlinkSync p = Throw e /\
        asset_file assetModel assetTts v p)) /\
     ((forall p, unlinkSync p = Ok tt) -> snd r = Ok true)).
Proof.
  split.
  - unfold deleteVideo. intros ->. reflexivity.
  - intros v Hv. cbv zeta. unfold deleteVideo. rewrite Hv.
    destruct (unlink_asset_cases existsSync unlinkSync assetModel (file_path v))
      as [A1 [B1 C1]].
    destruct (unlink_asset_cases existsSync unlinkSync assetTts (audio_path v))
      as [A2 [B2 C2]].
    destruct (unlink_asset existsSync unlinkSync assetModel (file_path v))
      as [f1 [[] | e1]]; simpl in A1, B1, C1 |- *.
    + destruct (unlink_asset existsSync unlinkSync assetTts (audio_path v))
        as [f2 [[] | e2]]; simpl in A2, B2, C2 |- *.
      * split; [| split].
        -- intros p Hp. apply in_app_or in Hp as [Hp | Hp].
           ++ destruct (A1 p Hp) as [Hx [Hu Hf]]. repeat split; try assumption.
              left. exact Hf.
           ++ destruct (A2 p Hp) as [Hx [Hu Hf]]. repeat split; try assumption.
              right. exact Hf.
        -- left. split; [reflexivity |]. split; [apply selectByID_remove_same |].
           intros u Hu. apply selectByID_remove_other. exact Hu.
        -- intros _. reflexivity.
      * split; [| split].
        -- intros p Hp. apply in_app_or in Hp as [Hp | Hp].
           ++ destruct (A1 p Hp) as [Hx [Hu Hf]]. repeat split; try assumption.
              left. exact Hf.
           ++ destruct (A2 p Hp) as [Hx [Hu Hf]]. repeat split; try assumption.
              right. exact Hf.
        -- right. destruct (B2 e2 eq_refl) as [_ [f [Hf [Hne [Hx Hu]]]]].
           exists (path_join assetTts f), e2. repeat split; try assumption.
           right. exists f. auto.
        -- intros Hall. specialize (C2 Hall). discriminate.
    + split; [| split].
      * intros p Hp. destruct (A1 p Hp) as [Hx [Hu Hf]]. repeat split; try assumption.
        left. exact Hf.
      * right. destruct (B1 e1 eq_refl) as [_ [f [Hf [Hne [Hx Hu]]]]].
        exists (path_join assetModel f), e1. repeat split; try assumption.
        left. exists f. auto.
      * intros Hall. specialize (C1 Hall). discriminate.
Qed.

(** A busy result file: the error is rethrown and the job's row stays. *)
Lemma deleteVideo_spec_witness :
  deleteVideo completed_job "/data/model" "/data/tts" (fun _ => true)
    (fun _ => Throw "EBUSY") 5 = (completed_job, [], Throw "EBUSY") /\
  exists p e,
    snd (deleteVideo completed_job "/data/model" "/data/tts" (fun _ => true)
           (fun _ => Throw "EBUSY") 5) = Throw e /\
    fst (fst (deleteVideo completed_job "/data/model" "/data/tts" (fun _ => true)
                (fun _ => Throw "EBUSY") 5)) = completed_job /\
    asset_file "/data/model" "/data/tts" (hd (draft 0 None) completed_job) p.
Proof.
  split; [reflexivity |].
  pose proof (proj2 (deleteVideo_spec completed_job "/data/model" "/data/tts"
                      (fun _ => true) (fun _ => Throw "EBUSY") 5)
               (hd (draft 0 None) completed_job) eq_refl) as Hd.
  cbv zeta in Hd.
  destruct Hd as [_ [[[H _] | [p [e [H1 [H2 [_ [_ H3]]]]]]] _]].
  - vm_compute in H. discriminate H.
  - exists p, e. split; [exact H1 |]. split; [exact H2 | exact H3].
Defined.

(** ** How [synthesizeVideo] settles *)

Ltac split_matches :=
  repeat match goal with
  | |- context [match ?x with _ => _ end] =>
      lazymatch x with
      | selectByID _ _ => fail
      | _ => destruct x eqn:?
      end
  end.

(** [synthesizeVideo] on an existing job, whatever its current status
    (it never checks it, so a job cancelled after being queued is submitted
    all the same), leaves it [pending] or [failed] and never [processing],
    with no result file; it is [pending] only with the fresh task code
    recorded and a normally settled promise, and when the promise rejects
    the job is [failed] with the error's message. *)
Theorem synthesizeVideo_settles (s : store) (g : gateways) (vid : nat)
    (v : video) (Hv : selectByID s vid = Some v) :
  exists w, selectByID (fst (synthesizeVideo s g vid)) vid = Some w /\
    js_truthy (file_path w) = false /\
    ((status w = Pending /\ snd (synthesizeVideo s g vid) = Ok vid /\
      code w = Some (g_uuid g)) \/
     (status w = Failed /\
      (snd (synthesizeVideo s g vid) = Ok vid \/
       snd (synthesizeVideo s g vid) = Throw (message w)))).
Proof.
  unfold synthesizeVideo.
  rewrite selectByID_update_same, Hv. simpl option_map. cbv iota beta.
  split_matches; simpl; unfold updateStatus;
    rewrite ?selectByID_update_same, ?Hv; simpl;
    eexists; (split; [reflexivity |]); simpl; split; try reflexivity;
    first [ left; repeat split; reflexivity
          | right; split; [reflexivity | first [left; reflexivity | right; reflexivity]] ].
Qed.

Lemma synthesizeVideo_settles_witness :
  exists w, selectByID (fst (synthesizeVideo cancel_sample g_down 3)) 3 = Some w /\
    js_truthy (file_path w) = false /\
    ((status w = Pending /\ snd (synthesizeVideo cancel_sample g_down 3) = Ok 3 /\
      code w = Some (g_uuid g_down)) \/
     (status w = Failed /\
      (snd (synthesizeVideo cancel_sample g_down 3) = Ok 3 \/
       snd (synthesizeVideo cancel_sample g_down 3) = Throw (message w)))).
Proof. apply (synthesizeVideo_settles cancel_sample g_down 3 _ eq_refl). Defined.

(** [synthesizeVideo] writes only the row of its own job. *)
Theorem synthesizeVideo_frame (s : store) (g : gateways) (vid u : nat)
    (Hu : u <> vid) :
  selectByID (fst (synthesizeVideo s g vid)) u = selectByID s u.
Proof.
  unfold synthesizeVideo.
  assert (H1 : forall p, selectByID (update s vid p) u = selectByID s u)
    by (intros p; apply selectByID_update_other; exact Hu).
  cbv zeta.
  destruct (selectByID _ vid); split_matches; simpl; unfold updateStatus;
    rewrite ?selectByID_update_other by exact Hu; first [reflexivity | apply H1].
Qed.

Lemma synthesizeVideo_frame_witness :
  selectByID (fst (synthesizeVideo two_waiting (g_accept "h1") 1)) 2 =
    selectByID two_waiting 2.
Proof. apply synthesizeVideo_frame. discriminate. Defined.

(** ** What one scheduler tick touches *)

Lemma updateStatus_ids (s : store) (t : nat) st m pr fp :
  map id (updateStatus s t st m pr fp) = map id s.
Proof. apply map_id_update. Qed.

Lemma pollPending_ids (s : store) (g : gateways) (v : video) :
  map id (pollPending s g v) = map id s.
Proof.
  unfold pollPending, handleVideoCompletion, updateStatus.
  repeat (match goal with
          | |- context [match ?x with _ => _ end] => destruct x
          | |- context [if ?x then _ else _] => destruct x
          end); rewrite ?map_id_update; reflexivity.
Qed.

Lemma pollPending_other (s : store) (g : gateways) (v : video) (u : nat) :
  u <> id v -> selectByID (pollPending s g v) u = selectByID s u.
Proof.
  intros Hu. unfold pollPending, handleVideoCompletion, updateStatus.
  repeat (match goal with
          | |- context [match ?x with _ => _ end] => destruct x
          | |- context [if ?x then _ else _] => destruct x
          end); rewrite ?selectByID_update_other by exact Hu; reflexivity.
Qed.

Lemma synthesizeVideo_ids (s : store) (g : gateways) (vid : nat) :
  map id (fst (synthesizeVideo s g vid)) = map id s.
Proof.
  unfold synthesizeVideo. cbv zeta.
  destruct (selectByID _ vid); split_matches; simpl; unfold updateStatus;
    rewrite ?map_id_update; reflexivity.
Qed.

Lemma synth_begin_ids (s : store) (g : gateways) (vid : nat) :
  map id (fst (synth_begin s g vid)) = map id s.
Proof.
  unfold synth_begin. cbv zeta.
  destruct (selectByID _ vid); split_matches; simpl; unfold updateStatus;
    rewrite ?map_id_update; reflexivity.
Qed.

Lemma synth_resume_ids (s : store) (g : gateways) (c : suspended) :
  map id (fst (synth_resume s g c)) = map id s.
Proof.
  unfold synth_resume. cbv zeta.
  split_matches; simpl; unfold updateStatus; rewrite ?map_id_update; reflexivity.
Qed.

Lemma processTaskQueue_ids (s : store) (g : gateways) :
  map id (fst (processTaskQueue s g)) = map id s.
Proof.
  unfold processTaskQueue, processPendingVideos.
  destruct (findFirstByStatus s Pending); simpl; [apply pollPending_ids | reflexivity].
Qed.

(** One tick of [processTaskQueue]: with no pending job the store is left
    as it is and only waiting jobs are handed to [setImmediate]; with a
    pending job nothing is scheduled and only that job's row can change. *)
Theorem processTaskQueue_frame (s : store) (g : gateways) :
  (findFirstByStatus s Pending = None ->
     fst (processTaskQueue s g) = s /\
     forall x, In x (snd (processTaskQueue s g)) ->
       exists w, In w s /\ id w = x /\ status w = Waiting) /\
  (forall v, findFirstByStatus s Pending = Some v ->
     snd (processTaskQueue s g) = [] /\
     forall u, u <> id v ->
       selectByID (fst (processTaskQueue s g)) u = selectByID s u).
Proof.
  unfold processTaskQueue, processPendingVideos. split.
  - intros ->. simpl. split; [reflexivity |].
    intros x Hx. unfold processNextWaitingVideo in Hx.
    destruct (findFirstByStatus s Waiting) as [w |] eqn:Ew; [| contradiction].
    apply findFirstByStatus_some in Ew as [Hin Hst].
    simpl in Hx. exists w. intuition congruence.
  - intros v ->. simpl. split; [reflexivity |].
    intros u Hu. apply pollPending_other. exact Hu.
Qed.

(** ** Invariants of every reachable state *)

Lemma nodup_insert (s : store) (v : video) (now : nat) :
  NoDup (map id s) -> ~ In (id v) (map id s) -> NoDup (map id (insert s v now)).
Proof.
  intros Hnd Hfresh. unfold insert. rewrite map_app. simpl.
  apply NoDup_app; [exact Hnd | repeat constructor; simpl; tauto |].
  intros x Hx [Hy | []]. simpl in Hy. subst x. contradiction.
Qed.

Lemma step_ids (ls : loop_state) (e : event) :
  (forall v now, e <> Create v now) ->
  map id (ls_store (step ls e)) = map id (ls_store ls).
Proof.
  intros Hc. unfold step. destruct (ls_halted ls); [reflexivity |].
  destruct e as [g | g | k g | vid | vid | vid | v now]; simpl.
  - pose proof (processTaskQueue_ids (ls_store ls) g) as Hq.
    destruct (processTaskQueue (ls_store ls) g). exact Hq.
  - destruct (ls_immediates ls) as [| vid rest]; [reflexivity |].
    pose proof (synth_begin_ids (ls_store ls) g vid) as Hs.
    destruct (synth_begin (ls_store ls) g vid) as [s' [? | ?]]; exact Hs.
  - destruct (nth_error (ls_awaiting ls) k) as [c |]; [| reflexivity].
    pose proof (synth_resume_ids (ls_store ls) g c) as Hs.
    destruct (synth_resume (ls_store ls) g c) as [s' [? | ?]]; exact Hs.
  - reflexivity.
  - unfold cancelTask. destruct (selectByID (ls_store ls) vid); [| reflexivity].
    destruct (negb _); [reflexivity | apply map_id_update].
  - unfold retryFailedTask. destruct (selectByID (ls_store ls) vid); [| reflexivity].
    destruct (negb _); [reflexivity | apply map_id_update].
  - exfalso. apply (Hc v now). reflexivity.
Qed.

Lemma step_nodup_sorted (ls : loop_state) (e : event) :
  NoDup (map id (ls_store ls)) -> created_sorted (ls_store ls) ->
  event_okb ls e = true ->
  NoDup (map id (ls_store (step ls e))) /\ created_sorted (ls_store (step ls e)).
Proof.
  intros Hnd Hs Hok.
  assert (Hc : clock_ok ls e).
  { destruct e; simpl; try exact I. simpl in Hok.
    apply andb_true_iff in Hok as [Hle _]. rewrite forallb_forall in Hle.
    intros x Hx. apply Nat.leb_le, Hle, Hx. }
  split; [| apply step_sorted; assumption].
  destruct e as [g | g | k g | vid | vid | vid | v now];
    try (rewrite step_ids by discriminate; exact Hnd).
  unfold step. destruct (ls_halted ls); [exact Hnd |]. simpl.
  simpl in Hok. apply andb_true_iff in Hok as [_ Hfr].
  apply nodup_insert; [exact Hnd |].
  intros Hin. apply in_map_iff in Hin as [x [Hx Hin]].
  apply negb_true_iff in Hfr.
  assert (Hex : existsb (fun y => Nat.eqb (id y) (id v)) (ls_store ls) = true).
  { apply existsb_exists. exists x. split; [exact Hin | apply Nat.eqb_eq; exact Hx]. }
  congruence.
Qed.

(** Every state the process reaches from its empty start, through ticks,
    [setImmediate] callbacks, generate, cancel and retry requests and the
    creation of jobs with fresh ids at a non-decreasing clock, keeps its
    job ids distinct and its rows in [created_at] order. *)
Theorem reachable_invariants (es : list event)
    (Hok : trace_okb initial es = true) :
  NoDup (map id (ls_store (run initial es))) /\
  created_sorted (ls_store (run initial es)).
Proof.
  assert (H : forall ls, NoDup (map id (ls_store ls)) -> created_sorted (ls_store ls) ->
            trace_okb ls es = true ->
            NoDup (map id (ls_store (run ls es))) /\ created_sorted (ls_store (run ls es))).
  { clear Hok. induction es as [| e es IH]; intros ls Hnd Hs Ht; simpl; [tauto |].
    simpl in Ht. apply andb_true_iff in Ht as [He Ht].
    destruct (step_nodup_sorted ls e Hnd Hs He) as [Hnd' Hs'].
    apply IH; assumption. }
  apply H; [constructor | constructor | exact Hok].
Qed.

Lemma reachable_invariants_witness :
  NoDup (map id (ls_store (run initial overlap_from_empty))) /\
  created_sorted (ls_store (run initial overlap_from_empty)).
Proof. apply reachable_invariants. vm_compute. reflexivity. Defined.

(** ** Result files belong to completed jobs *)

Lemma roc_update_gen (s : store) (t : nat) (p : patch) :
  result_only_when_completed s ->
  (forall v, In v s -> id v = t ->
     js_truthy (file_path (apply_patch p v)) = true ->
     status (apply_patch p v) = Completed) ->
  result_only_when_completed (update s t p).
Proof.
  intros Hr Hp w Hw Ht. unfold update in Hw.
  apply in_map_iff in Hw as [x [Hx Hin]].
  destruct (Nat.eqb (id x) t) eqn:E; subst w.
  - apply Hp; [exact Hin | apply Nat.eqb_eq; exact E | exact Ht].
  - apply Hr; assumption.
Qed.

Lemma roc_update_clear (s : store) (t : nat) (p : patch) (f : option string) :
  p_file_path p = Some f -> js_truthy f = false ->
  result_only_when_completed s -> result_only_when_completed (update s t p).
Proof.
  intros Hf Hfalse Hr. apply roc_update_gen; [exact Hr |].
  intros v _ _ H. unfold apply_patch in H. simpl in H.
  rewrite Hf in H. simpl in H. congruence.
Qed.

Lemma roc_updateStatus (s : store) (t : nat) st m pr :
  result_only_when_completed s ->
  result_only_when_completed (updateStatus s t st m pr "").
Proof. intros Hr. eapply roc_update_clear; [reflexivity | reflexivity | exact Hr]. Qed.

Lemma roc_update_selected (s : store) (t : nat) (p : patch) (v0 : video) :
  NoDup (map id s) -> result_only_when_completed s ->
  selectByID s t = Some v0 -> status v0 <> Completed -> p_file_path p = None ->
  result_only_when_completed (update s t p).
Proof.
  intros Hnd Hr Hv0 Hst Hf. apply roc_update_gen; [exact Hr |].
  intros v Hin Hid Ht. exfalso.
  assert (v = v0) as ->.
  { apply (nodup_same_id s); [exact Hnd | exact Hin | apply (selectByID_in_store s t) ; exact Hv0 |].
    rewrite Hid. symmetry. apply (selectByID_id_eq s t). exact Hv0. }
  unfold apply_patch in Ht. simpl in Ht. rewrite Hf in Ht. simpl in Ht.
  apply Hst. apply Hr; [apply (selectByID_in_store s t); exact Hv0 | exact Ht].
Qed.

Lemma roc_pollPending (s : store) (g : gateways) (v : video) :
  result_only_when_completed s -> result_only_when_completed (pollPending s g v).
Proof.
  intros Hr. unfold pollPending, handleVideoCompletion.
  repeat (match goal with
          | |- context [match ?x with _ => _ end] => destruct x
          | |- context [if ?x then _ else _] => destruct x
          end);
    first [ apply roc_updateStatus; exact Hr
          | exact Hr
          | apply roc_update_gen; [exact Hr | intros; reflexivity] ].
Qed.

Lemma roc_synth_begin (s : store) (g : gateways) (vid : nat) :
  result_only_when_completed s ->
  result_only_when_completed (fst (synth_begin s g vid)).
Proof.
  intros Hr.
  assert (H1 : result_only_when_completed
    (update s vid (mkPatch (Some Processing) None (Some "Submitting task...")
                     None (Some None) None None None)))
    by (eapply roc_update_clear; [reflexivity | reflexivity | exact Hr]).
  unfold synth_begin. cbv zeta.
  destruct (selectByID _ vid); split_matches; simpl;
    first [ exact H1 | apply roc_updateStatus; exact H1 ].
Qed.

Lemma roc_synth_resume (s : store) (g : gateways) (c : suspended) :
  result_only_when_completed s ->
  result_only_when_completed (fst (synth_resume s g c)).
Proof.
  intros Hr. unfold synth_resume. cbv zeta.
  split_matches; simpl;
    first [ apply roc_updateStatus; exact Hr
          | eapply roc_update_clear; [reflexivity | reflexivity | exact Hr] ].
Qed.

Lemma roc_synthesizeVideo (s : store) (g : gateways) (vid : nat) :
  result_only_when_completed s ->
  result_only_when_completed (fst (synthesizeVideo s g vid)).
Proof.
  intros Hr.
  assert (H1 : result_only_when_completed
    (update s vid (mkPatch (Some Processing) None (Some "Submitting task...")
                     None (Some None) None None None)))
    by (eapply roc_update_clear; [reflexivity | reflexivity | exact Hr]).
  unfold synthesizeVideo. cbv zeta.
  destruct (selectByID _ vid); split_matches; simpl;
    first [ apply roc_updateStatus; exact H1
          | eapply roc_update_clear; [reflexivity | reflexivity | exact H1] ].
Qed.

(** Every event keeps "a row with a result file is [completed]", given
    distinct ids and an inserted row without a result file: ticks (only
    [handleVideoCompletion] writes a result file, together with
    [completed]), the two halves of [synthesizeVideo], which clear
    [file_path], cancel and retry, which only apply to jobs that are not
    completed, and the failing generate route never leave a result file on
    a job that is not completed. *)
Theorem step_result_only_when_completed (ls : loop_state) (e : event)
    (Hnd : NoDup (map id (ls_store ls)))
    (Hr : result_only_when_completed (ls_store ls))
    (He : roc_event_ok e) :
  result_only_when_completed (ls_store (step ls e)).
Proof.
  unfold step. destruct (ls_halted ls); [exact Hr |].
  destruct e as [g | g | k g | vid | vid | vid | v now]; simpl in He |- *.
  - unfold processTaskQueue, processPendingVideos.
    destruct (findFirstByStatus (ls_store ls) Pending); simpl;
      [apply roc_pollPending; exact Hr | exact Hr].
  - destruct (ls_immediates ls) as [| vid rest]; [exact Hr |].
    pose proof (roc_synth_begin (ls_store ls) g vid Hr) as Hs.
    destruct (synth_begin (ls_store ls) g vid) as [s' [? | ?]]; exact Hs.
  - destruct (nth_error (ls_awaiting ls) k) as [c |]; [| exact Hr].
    pose proof (roc_synth_resume (ls_store ls) g c Hr) as Hs.
    destruct (synth_resume (ls_store ls) g c) as [s' [? | ?]]; exact Hs.
  - exact Hr.
  - unfold cancelTask. destruct (selectByID (ls_store ls) vid) as [v0 |] eqn:Ev;
      [| exact Hr].
    destruct (negb (cancellable (status v0))) eqn:Ec; [exact Hr |].
    apply (roc_update_selected _ _ _ v0); try assumption; [| reflexivity].
    intros Hc. rewrite Hc in Ec. discriminate.
  - unfold retryFailedTask. destruct (selectByID (ls_store ls) vid) as [v0 |] eqn:Ev;
      [| exact Hr].
    destruct (negb (status_eqb (status v0) Failed)) eqn:Ef; [exact Hr |].
    apply (roc_update_selected _ _ _ v0); try assumption; [| reflexivity].
    intros Hc. rewrite Hc in Ef. discriminate.
  - intros w Hw Ht. unfold insert in Hw. apply in_app_or in Hw as [Hw | [<- | []]].
    + apply Hr; assumption.
    + simpl in Ht. congruence.
Qed.

Lemma step_result_only_when_completed_witness :
  result_only_when_completed
    (ls_store (step (start_with done_and_pending) (Tick g_done))).
Proof.
  apply step_result_only_when_completed.
  - simpl. repeat constructor; simpl; intuition discriminate.
  - intros v Hv Ht. simpl in Hv.
    destruct Hv as [<- | [<- | []]]; [reflexivity | discriminate Ht].
  - exact I.
Defined.

(** ** [synthesizeVideo] in two halves *)

